(** * Financial RAG system: a shallow embedding of the retrieval and
    ingestion pipeline, and the properties of its specification.

    The development follows the source tree: [app/core/config.py],
    [app/services/{embeddings,vector,document,search,llm}.py] and
    [app/api/v1/{chat,ingest}.py].  Python dictionaries are finite maps
    ([gmap string _]), Python sets are [gset string], exceptions are values of
    an [outcome] type, and the code that mutates the vector index or the
    temporary storage runs in a state-and-exception monad over a [world].

    External capability providers (the sentence-transformer model, the
    Pinecone index, the Cohere reranker, the Anthropic client, the document
    loader, [json.dumps], [os.remove]) are not part of the repository: they are
    gathered in the record [externals] and every definition is parametric in
    it.  Calls to [logger] have no effect on any value computed by the code and
    are left out; the only expression they evaluate, [str(e)], is total on the
    exceptions of type [exn]. *)

From Stdlib Require Import ZArith Ascii String List Lia.
From stdpp Require Import base option list gmap fin_maps strings pretty sorting.

Local Open Scope string_scope.
Local Open Scope stdpp_scope.

(** ** Python values, strings and exceptions *)

Module py.

(** Characters that need an escape in a Rocq literal. *)
Definition nl_char : ascii := "010"%char.
Definition squote_char : ascii := "039"%char.
Definition dquote_char : ascii := "034"%char.
Definition nl : string := String nl_char "".

(** [len(s)], [s[:n]], [s.startswith(c)], [s.endswith(c)] for a one-character
    [c], [s.strip()] and [sep.join(parts)].  A [string] is read as a sequence
    of code points below 256, one per [ascii]. *)
Definition len (s : string) : nat := String.length s.

Fixpoint str_take (n : nat) (s : string) : string :=
  match n, s with
  | S n', String c s' => String c (str_take n' s')
  | _, _ => ""
  end.

Definition startswith (s : string) (c : ascii) : bool :=
  match s with
  | String c' _ => bool_decide (c' = c)
  | "" => false
  end.

Fixpoint endswith (s : string) (c : ascii) : bool :=
  match s with
  | "" => false
  | String c' "" => bool_decide (c' = c)
  | String _ s' => endswith s' c
  end.

(** [str.isspace] on code points below 256: TAB..CR, FS..US, SPACE, NEL and
    NBSP. *)
Definition is_space (c : ascii) : bool :=
  let n := nat_of_ascii c in
  (((9 <=? n) && (n <=? 13)) || ((28 <=? n) && (n <=? 32))
   || (n =? 133) || (n =? 160))%nat.

Fixpoint lstrip (s : string) : string :=
  match s with
  | String c s' => if is_space c then lstrip s' else s
  | "" => ""
  end.

Definition rstrip (s : string) : string :=
  String.rev (lstrip (String.rev s)).

Definition strip (s : string) : string := rstrip (lstrip s).

Fixpoint join (sep : string) (parts : list string) : string :=
  match parts with
  | [] => ""
  | [p] => p
  | p :: rest => p +:+ sep +:+ join sep rest
  end.

(** [t in s] for strings. *)
Definition occurs (t s : string) : Prop :=
  ∃ pre post, s = pre +:+ t +:+ post.

(** Exception classes the handlers of the code tell apart, and the rest. *)
Inductive exc_class :=
| KeyError
| AttributeError
| TypeError
| IndexError
| ValueError
| OSError
| OtherException (name : string).

(** An exception (a subclass of [Exception]) with the text [str(e)]. *)
Record exn := Exn { exn_class : exc_class; exn_text : string }.

Inductive outcome (A : Type) :=
| Returned (a : A)
| Raised (e : exn).
Global Arguments Returned {A} a.
Global Arguments Raised {A} e.

Global Instance outcome_ret : MRet outcome := λ A a, Returned a.
Global Instance outcome_bind : MBind outcome := λ A B k m,
  match m with
  | Returned a => k a
  | Raised e => Raised e
  end.

Definition is_returned {A} (o : outcome A) : Prop :=
  match o with Returned _ => True | Raised _ => False end.

(** [try: body except Exception as e: handler(e)] without state. *)
Definition try_catch {A} (body : outcome A) (handler : exn → outcome A)
  : outcome A :=
  match body with
  | Returned a => Returned a
  | Raised e => handler e
  end.

(** An object of a type the code does not know: what the code can observe of
    it is its type name, its truth value and what [str(o)] does. *)
Record pyobject := PyObject {
  obj_type : string;
  obj_truth : bool;
  obj_str : outcome string
}.

(** Values found in metadata dictionaries.  A float is kept as its IEEE-754
    binary64 bit pattern; nested dictionaries keep their items in order. *)
#[warnings="-register-all"]
Inductive pyval :=
| VNone
| VStr (s : string)
| VInt (z : Z)
| VFloat (bits : Z)
| VBool (b : bool)
| VList (items : list pyval)
| VDict (items : list (string * pyval))
| VOther (o : pyobject).

Definition is_str (v : pyval) : bool :=
  match v with VStr _ => true | _ => false end.

(** [bool(v)]: the test of [if chunk_text:]. *)
Definition truthy (v : pyval) : bool :=
  match v with
  | VNone => false
  | VStr s => negb (bool_decide (s = ""))
  | VInt z => negb (z =? 0)%Z
  | VFloat bits => negb (Z.land bits (2 ^ 63 - 1) =? 0)%Z
  | VBool b => b
  | VList items => negb (bool_decide (items = []))
  | VDict items => match items with [] => false | _ => true end
  | VOther o => obj_truth o
  end.

Definition type_name (v : pyval) : string :=
  match v with
  | VNone => "NoneType"
  | VStr _ => "str"
  | VInt _ => "int"
  | VFloat _ => "float"
  | VBool _ => "bool"
  | VList _ => "list"
  | VDict _ => "dict"
  | VOther o => obj_type o
  end.

(** [sep.join(parts)] raises [TypeError] on the first item that is not a
    string. *)
Fixpoint all_strings (i : nat) (parts : list pyval) : outcome (list string) :=
  match parts with
  | [] => Returned []
  | VStr s :: rest => rest' ← all_strings (S i) rest; Returned (s :: rest')
  | v :: _ =>
      Raised (Exn TypeError
        ("sequence item " +:+ pretty i +:+ ": expected str instance, "
           +:+ type_name v +:+ " found"))
  end.

Definition join_values (sep : string) (parts : list pyval) : outcome string :=
  strs ← all_strings 0 parts; Returned (join sep strs).

(** [range(start, stop, step)] for a positive step, as the iterator produces
    it: the next index is yielded while it is below [stop].  The fuel [stop]
    is never exhausted when [step] is positive. *)
Fixpoint range_loop (fuel i stop step : nat) : list nat :=
  match fuel with
  | 0 => []
  | S fuel' =>
      if (i <? stop)%nat then i :: range_loop fuel' (i + step) stop step else []
  end.

Definition range (start stop step : nat) : list nat :=
  range_loop stop start stop step.

(** [l[i:j]] for [i <= j]. *)
Definition slice {A} (l : list A) (i j : nat) : list A :=
  take (j - i) (drop i l).

End py.
Export py.

(** ** [app/core/config.py] *)

Module config.

Record Settings := {
  PINECONE_DIMENSION : nat;
  LLM_MODEL : string;
  EMBEDDING_MODEL_NAME : string;
  COHERE_RERANK_MODEL : string;
  RETRIEVAL_LIMIT : nat;
  RERANK_LIMIT : nat;
  ALLOWED_EXTENSIONS : gset string;
  MAX_UPLOAD_MB : Z
}.

(** The values the class gives when the environment sets none.
    [ALLOWED_EXTENSIONS] is kept as the set [_ALLOWED_EXTENSIONS] that
    [ingest.py] computes from the comma-separated text. *)
Definition defaults : Settings := {|
  PINECONE_DIMENSION := 384;
  LLM_MODEL := "claude-haiku-4-5";
  EMBEDDING_MODEL_NAME := "BAAI/bge-small-en-v1.5";
  COHERE_RERANK_MODEL := "rerank-english-v3.0";
  RETRIEVAL_LIMIT := 50;
  RERANK_LIMIT := 10;
  ALLOWED_EXTENSIONS := {[ ".pdf"; ".txt"; ".html" ]};
  MAX_UPLOAD_MB := 50
|}.

End config.
Export config.

(** ** The world around the services *)

Module env.

(** An embedding; the numeric value of its components plays no role. *)
Definition vector : Type := list Z.

(** A record of the vector index: [{"id", "values", "metadata"}]. *)
Record vector_record := VectorRecord {
  rec_id : string;
  rec_values : vector;
  rec_metadata : gmap string pyval
}.

(** Calls that leave the process, in the order they are issued.  The code
    never calls [index.delete]; the constructor is there so that its absence
    from a history says something. *)
Inductive event :=
| EvLoad (file_path : string)
| EvEncode (texts : list string)
| EvUpsert (vectors : list vector_record)
| EvDelete (ids : list string)
| EvSave (file_path : string)
| EvRemove (file_path : string).

(** A chunk ready for the vector service: [{"id", "text", "metadata"}]. *)
Record chunk := Chunk {
  chunk_id : string;
  chunk_text : string;
  chunk_metadata : gmap string pyval
}.

(** A LangChain [Document] as the splitter returns it. *)
Record document := Document {
  page_content : string;
  doc_metadata : list (pyval * pyval)
}.

(** What [client.messages.create] returns: a message whose [content] is a
    list of blocks (or [None]), or an object without that attribute. *)
Inductive block :=
| TextBlock (text : string)
| OtherBlock (type : string).

Inductive response :=
| Message (content : option (list block))
| NoContent (type : string).

(** Reading an attribute with [getattr(e, name, None)]. *)
Inductive attr_read :=
| AttrInt (z : Z)
| AttrNotInt
| AttrMissing
| AttrRaises.

(** What [client.messages.create] raises: an [anthropic.APIError] (or a
    subclass), of which the code knows that [str(e)] may itself raise
    ([api_text = None]), or an ordinary exception. *)
Inductive llm_error :=
| APIError (status_code : attr_read) (api_text : option string)
| PlainError (e : exn).

Inductive llm_result :=
| LLMReturned (r : response)
| LLMRaised (e : llm_error).

Record llm_request := {
  req_model : string;
  req_max_tokens : nat;
  req_temperature : Z;
  req_system : string;
  req_messages : list (string * string)
}.

(** The capability providers.  Those reached while the index or the storage
    changes take the history of calls made so far, so that any pattern of
    failures can be described. *)
Record externals := {
  settings : Settings;
  (** [UnstructuredFileLoader(path, mode="elements").load()] followed by
      [text_splitter.split_documents] *)
  load_and_split : list event → string → outcome (list document);
  (** [str(uuid.uuid4())] *)
  uuid4 : list event → nat → string;
  (** [repr] of floats, lists and dictionaries *)
  py_repr : pyval → string;
  (** [self.model.encode(texts, convert_to_numpy=True).tolist()] *)
  model_encode : list event → list string → outcome (list vector);
  (** [json.dumps] *)
  json_dumps : pyval → outcome string;
  (** [self.index.upsert(vectors=...)]: the error it raises, if any *)
  index_upsert_fault : list event → list vector_record → option exn;
  (** [os.remove]: the error it raises, if any *)
  os_remove_fault : list event → string → option exn;
  (** [self.embedding_model.encode(query, convert_to_numpy=True).tolist()] *)
  query_encode : string → outcome vector;
  (** [self.index.query]: the error it raises, if any, and the similarity
      score by which matches are ordered *)
  index_query_fault : vector → option exn;
  similarity : vector → vector → Z;
  (** [self.cohere_client.rerank(query, documents, top_n, model)]: the
      [index] of each result *)
  cohere_rerank : string → list pyval → nat → string → outcome (list nat);
  (** [self.client.messages.create] *)
  messages_create : llm_request → llm_result;
  (** [int(text)], [None] for [ValueError] *)
  py_int : string → option Z;
  (** [os.path.splitext(name)[1].lower()] *)
  splitext_lower : string → string;
  (** [os.getcwd()] *)
  getcwd : string;
  (** writing the upload to disk: the error it raises, if any *)
  save_fault : list event → string → option exn
}.

(** The state the services act on: the content of the Pinecone index keyed
    by record id, the files of the temporary storage, the background tasks
    scheduled and not yet run, and the history of external calls. *)
Record world := World {
  w_index : gmap string vector_record;
  w_files : gset string;
  w_tasks : list (string * gmap string pyval);
  w_history : list event
}.

Definition record_event (ev : event) (w : world) : world :=
  World (w_index w) (w_files w) (w_tasks w) (w_history w ++ [ev]).

(** State and exceptions. *)
Definition M (A : Type) : Type := world → outcome A * world.

Global Instance M_ret : MRet M := λ A a w, (Returned a, w).
Global Instance M_bind : MBind M := λ A B k m w,
  match m w with
  | (Returned a, w') => k a w'
  | (Raised e, w') => (Raised e, w')
  end.

Definition raise {A} (e : exn) : M A := λ w, (Raised e, w).

Definition lift {A} (o : outcome A) : M A := λ w, (o, w).

(** A computation that reads the history of calls and changes nothing. *)
Definition with_history {A} (f : list event → outcome A) : M A := λ w,
  (f (w_history w), w).

(** [try: body except Exception as e: handler(e)] *)
Definition try_except {A} (body : M A) (handler : exn → M A) : M A := λ w,
  match body w with
  | (Returned a, w') => (Returned a, w')
  | (Raised e, w') => handler e w'
  end.

(** [try: body finally: cleanup]: the cleanup runs whatever the body did;
    the outcome is the body's unless the cleanup itself raises. *)
Definition try_finally {A} (body : M A) (cleanup : M unit) : M A := λ w,
  let '(r, w1) := body w in
  match cleanup w1 with
  | (Returned _, w2) => (r, w2)
  | (Raised e, w2) => (Raised e, w2)
  end.

(** [for x in xs: body(x)]: stops at the first exception. *)
Fixpoint for_each {A} (xs : list A) (body : A → M unit) : M unit :=
  match xs with
  | [] => mret tt
  | x :: xs' => _ ← body x; for_each xs' body
  end.

End env.
Export env.

(** ** [app/services/embeddings.py] and the model instances of the services *)

Module embeddings.

(** The state of the process that matters for the embedding model: the module
    global [_model] and the instances of [SentenceTransformer] constructed so
    far, each known by its position in [loaded]. *)
Record process := Process {
  _model : option nat;
  loaded : list string
}.

Definition fresh : process := Process None [].

(** [SentenceTransformer(name)]: every call loads the weights and gives a new
    instance. *)
Definition SentenceTransformer (name : string) (p : process) : nat * process :=
  (length (loaded p), Process (_model p) (loaded p ++ [name])).

Definition get_embedding_model (S : Settings) (p : process) : nat * process :=
  match _model p with
  | None =>
      let '(m, p') := SentenceTransformer (EMBEDDING_MODEL_NAME S) p in
      (m, Process (Some m) (loaded p'))
  | Some m => (m, p)
  end.

(** [VectorService.__init__]: [self.model = SentenceTransformer(...)]. *)
Definition VectorService_init (S : Settings) (p : process) : nat * process :=
  SentenceTransformer (EMBEDDING_MODEL_NAME S) p.

(** [SearchService.__init__]:
    [self.embedding_model = SentenceTransformer(...)]. *)
Definition SearchService_init (S : Settings) (p : process) : nat * process :=
  SentenceTransformer (EMBEDDING_MODEL_NAME S) p.

(** The model instances held once [app.main] is imported: [chat] imports
    [app.services.search], whose last line is [search_service =
    SearchService()], and [ingest] imports [app.services.vector], whose last
    line is [vector_service = VectorService()]. *)
Record services := Services {
  search_service_embedding_model : nat;
  vector_service_model : nat
}.

Definition import_app_main (S : Settings) (p : process) : services * process :=
  let '(sm, p1) := SearchService_init S p in
  let '(vm, p2) := VectorService_init S p1 in
  (Services sm vm, p2).

End embeddings.

(** ** [app/services/vector.py] *)

Module vector.

Definition exclude_fields : gset string :=
  {[ "coordinates"; "parent_id"; "element_id"; "orig_elements" ]}.

Definition json_fields : gset string := {[ "metadata_json" ]}.

Definition batch_size : nat := 100.

Section services.
Context (E : externals).

(** One turn of the loop of [_sanitize_metadata]: [None] when the field is
    skipped, the value stored under [key] otherwise. *)
Definition sanitize_field (key : string) (value : pyval)
  : outcome (option pyval) :=
  if decide (key ∈ exclude_fields) then Returned None
  else match value with
  | VNone => Returned None
  | VStr _ | VInt _ | VFloat _ | VBool _ => Returned (Some value)
  | VList items =>
      if forallb is_str items then Returned (Some value)
      else if decide (key ∈ json_fields) then
        text ← json_dumps E value; Returned (Some (VStr text))
      else Returned None
  | VDict _ =>
      if decide (key ∈ json_fields) then
        text ← json_dumps E value; Returned (Some (VStr text))
      else Returned None
  | VOther o =>
      match obj_str o with
      | Returned text => Returned (Some (VStr text))
      | Raised _ => Returned None
      end
  end.

Definition sanitize_step (key : string) (value : pyval)
    (acc : outcome (gmap string pyval)) : outcome (gmap string pyval) :=
  sanitized ← acc;
  field ← sanitize_field key value;
  Returned (match field with
            | Some v => <[key := v]> sanitized
            | None => sanitized
            end).

Definition _sanitize_metadata (metadata : gmap string pyval)
  : outcome (gmap string pyval) :=
  map_fold sanitize_step (Returned ∅) metadata.

(** [self.model.encode(texts, ...)] on one batch. *)
Definition encode_batch (texts : list string) : M (list vector) := λ w,
  (model_encode E (w_history w) texts, record_event (EvEncode texts) w).

(** [self.index.upsert(vectors=...)]: a record replaces the one stored under
    the same id; a call that raises stores nothing. *)
Definition store_records (idx : gmap string vector_record)
    (vectors : list vector_record) : gmap string vector_record :=
  foldl (λ acc r, <[rec_id r := r]> acc) idx vectors.

Definition index_upsert (vectors : list vector_record) : M unit := λ w,
  match index_upsert_fault E (w_history w) vectors with
  | Some e => (Raised e, record_event (EvUpsert vectors) w)
  | None =>
      (Returned tt,
       World (store_records (w_index w) vectors) (w_files w) (w_tasks w)
             (w_history w ++ [EvUpsert vectors]))
  end.

(** The loop over [zip(batch, embeddings)]. *)
Fixpoint prepare_records (pairs : list (chunk * vector))
  : outcome (list vector_record) :=
  match pairs with
  | [] => Returned []
  | (c, emb) :: rest =>
      sanitized_metadata ← _sanitize_metadata (chunk_metadata c);
      vectors_to_upsert ← prepare_records rest;
      Returned
        (VectorRecord (chunk_id c) emb sanitized_metadata :: vectors_to_upsert)
  end.

(** The body of the loop of [upsert_chunks] for one batch. *)
Definition upsert_batch (batch : list chunk) : M unit :=
  let texts := chunk_text <$> batch in
  try_except
    (embeddings ← encode_batch texts;
     vectors_to_upsert ← lift (prepare_records (zip batch embeddings));
     index_upsert vectors_to_upsert)
    (λ e, raise e).

Definition upsert_chunks (chunks : list chunk) : M unit :=
  match chunks with
  | [] => mret tt
  | _ =>
      let total_chunks := length chunks in
      for_each (range 0 total_chunks batch_size)
        (λ i, upsert_batch (slice chunks i (i + batch_size)))
  end.

End services.
End vector.

(** ** [app/services/document.py] *)

Module document.
Section services.
Context (E : externals).

Definition bool_str (b : bool) : string := if b then "True" else "False".

(** [str(k)] for the keys kept by [isinstance(k, (str, int, float))]. *)
Definition key_str (k : pyval) : option string :=
  match k with
  | VStr s => Some s
  | VInt z => Some (pretty z)
  | VBool b => Some (bool_str b)
  | VFloat _ => Some (py_repr E k)
  | _ => None
  end.

(** The dictionary comprehension over [chunk.metadata.items()]. *)
Definition parser_metadata (items : list (pyval * pyval)) : gmap string pyval :=
  foldl (λ acc kv,
           match kv.2, key_str kv.1 with
           | VNone, _ => acc
           | _, Some k => <[k := kv.2]> acc
           | _, None => acc
           end) ∅ items.

(** A value inside an f-string. *)
Definition format_value (v : pyval) : outcome string :=
  match v with
  | VNone => Returned "None"
  | VStr s => Returned s
  | VInt z => Returned (pretty z)
  | VBool b => Returned (bool_str b)
  | VFloat _ | VList _ | VDict _ => Returned (py_repr E v)
  | VOther o => obj_str o
  end.

Definition process_chunk (h : list event) (metadata : gmap string pyval)
    (i : nat) (doc : document) : outcome chunk :=
  file_id ← format_value (default (VStr (uuid4 E h i)) (metadata !! "file_id"));
  let chunk_id := file_id +:+ "#chunk" +:+ pretty i in
  let chunk_metadata := parser_metadata (doc_metadata doc) in
  let merged_metadata :=
    <["text" := VStr (page_content doc)]> (metadata ∪ chunk_metadata) in
  Returned (Chunk chunk_id (page_content doc) merged_metadata).

Fixpoint process_chunks (h : list event) (metadata : gmap string pyval)
    (i : nat) (docs : list document) : outcome (list chunk) :=
  match docs with
  | [] => Returned []
  | doc :: rest =>
      c ← process_chunk h metadata i doc;
      processed_chunks ← process_chunks h metadata (S i) rest;
      Returned (c :: processed_chunks)
  end.

Definition load_documents (file_path : string) : M (list document) := λ w,
  (load_and_split E (w_history w) file_path, record_event (EvLoad file_path) w).

Definition process_file (file_path : string) (metadata : gmap string pyval)
  : M (list chunk) :=
  chunks ← load_documents file_path;
  with_history (λ h, process_chunks h metadata 0 chunks).

End services.
End document.

(** ** [app/services/search.py] *)

Module search.

(** The text placed between chunks: two line breaks, three dashes, two line
    breaks. *)
Definition separator : string := nl +:+ nl +:+ "---" +:+ nl +:+ nl.

(** The metadata filter [{"user_id": {"$eq": user_id}}] on one record. *)
Definition matches_filter (user_id : string) (r : vector_record) : bool :=
  match rec_metadata r !! "user_id" with
  | Some (VStr s) => bool_decide (s = user_id)
  | _ => false
  end.

Section services.
Context (E : externals).

(** The order in which the index returns matches: closest first. *)
Definition closer (query_emb : vector) (a b : vector_record) : Prop :=
  (similarity E query_emb (rec_values b)
     ≤ similarity E query_emb (rec_values a))%Z.

#[local] Instance closer_dec query_emb a b : Decision (closer query_emb a b) :=
  Z_le_dec _ _.

(** [self.index.query(vector, top_k, include_metadata=True, filter)]: the
    index keeps the records that pass the filter, orders them by decreasing
    similarity to [vector] and returns the first [top_k]. *)
Definition index_query (idx : gmap string vector_record) (query_emb : vector)
    (top_k : nat) (user_id : string) : outcome (list vector_record) :=
  match index_query_fault E query_emb with
  | Some e => Raised e
  | None =>
      let candidates :=
        (map_to_list
           (filter (λ kv, Is_true (matches_filter user_id kv.2)) idx)).*2 in
      Returned (take top_k (merge_sort (closer query_emb) candidates))
  end.

(** The loop that collects [match['metadata'].get('text', '')] when it is
    truthy. *)
Definition extract_texts (matches : list vector_record) : list pyval :=
  omap (λ m,
          let chunk_text := default (VStr "") (rec_metadata m !! "text") in
          if truthy chunk_text then Some chunk_text else None) matches.

(** [chunks[result.index]] *)
Definition pick (chunks : list pyval) (i : nat) : outcome pyval :=
  match chunks !! i with
  | Some c => Returned c
  | None => Raised (Exn IndexError "list index out of range")
  end.

Definition get_context (idx : gmap string vector_record)
    (query user_id : string) : outcome string :=
  try_catch
    (query_emb ← query_encode E query;
     matches ← index_query idx query_emb (RETRIEVAL_LIMIT (settings E)) user_id;
     match matches with
     | [] => Returned ""
     | _ =>
         let chunks := extract_texts matches in
         match chunks with
         | [] => Returned ""
         | _ =>
             reranked ← cohere_rerank E query chunks
                          (RERANK_LIMIT (settings E))
                          (COHERE_RERANK_MODEL (settings E));
             final_context_chunks ← mapM (pick chunks) reranked;
             join_values separator final_context_chunks
         end
     end)
    (λ e, Raised e).

End services.
End search.

(** ** [app/services/llm.py] *)

Module llm.

Definition system_prompt : string :=
  "You are a financial RAG Analysis Agent powered by Claude Haiku 4.5. "
  +:+ "Your goal is to provide lightning-fast, highly accurate responses based "
  +:+ "strictly on the provided context." +:+ nl +:+ nl
  +:+ "OPERATING GUIDELINES:" +:+ nl
  +:+ "1. CONTEXTUAL FIDELITY: Only use the provided <context> tags to answer. "
  +:+ "If the answer isn't there, simply say: 'Information not available in current documents.'" +:+ nl
  +:+ "2. SPEED-OPTIMIZED CITATIONS: Use concise inline citations like [source_file.pdf]." +:+ nl
  +:+ "3. FORMATTING: Use Markdown headers and bullet points for readability." +:+ nl
  +:+ "4. PRECISION: Maintain the exact numerical values found in the context (no rounding unless specified)." +:+ nl
  +:+ "5. NO CONVERSATIONAL FILLER: Do not say 'Based on the documents...' or 'I hope this helps.' "
  +:+ "Start the answer immediately.".

Definition prompt_content (query context : string) : string :=
  "Here is the retrieved document context:" +:+ nl
  +:+ "<context>" +:+ nl +:+ context +:+ nl +:+ "</context>" +:+ nl +:+ nl
  +:+ "USER QUESTION: " +:+ query.

Definition try_again : string :=
  "SERVICE_ERROR: Unable to generate a response. Please try again or check the server logs.".

Definition model_not_found (S : Settings) : string :=
  "SERVICE_ERROR: Model '" +:+ LLM_MODEL S
  +:+ "' not found. Please check your model configuration.".

Definition unexpected (text : string) : string :=
  "SERVICE_ERROR: Unable to generate a response. Error: " +:+ str_take 100 text.

(** [response.content[0].text] *)
Definition first_text (r : response) : outcome string :=
  match r with
  | NoContent ty =>
      Raised (Exn AttributeError
                ("'" +:+ ty +:+ "' object has no attribute 'content'"))
  | Message None =>
      Raised (Exn TypeError "'NoneType' object is not subscriptable")
  | Message (Some []) => Raised (Exn IndexError "list index out of range")
  | Message (Some (TextBlock text :: _)) => Returned text
  | Message (Some (OtherBlock ty :: _)) =>
      Raised (Exn AttributeError
                ("'" +:+ ty +:+ "' object has no attribute 'text'"))
  end.

(** [getattr(e, 'status_code', None)] inside its own [try]. *)
Definition read_status_code (a : attr_read) : option Z :=
  match a with
  | AttrInt z => Some z
  | AttrNotInt | AttrMissing | AttrRaises => None
  end.

(** The second and third [except] clauses, in order. *)
Definition handle_plain (e : exn) : outcome string :=
  match exn_class e with
  | KeyError | AttributeError | TypeError => Returned try_again
  | _ => Returned (unexpected (exn_text e))
  end.

Section services.
Context (E : externals).

Definition request (query context : string) : llm_request := {|
  req_model := LLM_MODEL (settings E);
  req_max_tokens := 1024;
  req_temperature := 0;
  req_system := system_prompt;
  req_messages := [("user", prompt_content query context)]
|}.

Definition generate_answer (query context : string) : outcome string :=
  match messages_create E (request query context) with
  | LLMReturned r =>
      match first_text r with
      | Returned answer => Returned answer
      | Raised e => handle_plain e
      end
  | LLMRaised (APIError status _) =>
      let status_code := read_status_code status in
      if bool_decide (status_code = Some 404%Z)
      then Returned (model_not_found (settings E))
      else Returned try_again
  | LLMRaised (PlainError e) => handle_plain e
  end.

End services.
End llm.

(** ** [app/api/v1/chat.py] *)

Module chat.

Record ChatRequest := {
  query : string;
  user_id : string
}.

(** Building a [ChatRequest] from a body in which [user_id] may be absent. *)
Definition parse_ChatRequest (query : string) (user_id : option string)
  : ChatRequest :=
  {| query := query; user_id := default "default_user" user_id |}.

Record ChatResponse := {
  answer : string;
  status : string
}.

Definition no_documents : string :=
  "I couldn't find any relevant documents to answer your question.".

Definition please_try_again : string :=
  "An error occurred while processing your query. Please try again.".

Definition error_label : string := "Error processing your query: ".

(** [raw.startswith(q) and raw.endswith(q)] for either quote character. *)
Definition quoted (raw : string) : bool :=
  (startswith raw squote_char && endswith raw squote_char)
  || (startswith raw dquote_char && endswith raw dquote_char).

(** The body of the [except] clause of [query_rag]. *)
Definition error_response (e : exn) : ChatResponse :=
  let raw := strip (str_take 200 (exn_text e)) in
  let answer :=
    if bool_decide (raw = "") then please_try_again
    else if (len raw <? 50)%nat && quoted raw then please_try_again
    else error_label +:+ raw in
  {| answer := answer; status := "error" |}.

Section services.
Context (E : externals).

Definition query_rag (idx : gmap string vector_record) (request : ChatRequest)
  : outcome ChatResponse :=
  try_catch
    (context ← search.get_context E idx (query request) (user_id request);
     if bool_decide (context = "") then
       Returned {| answer := no_documents; status := "success" |}
     else
       answer ← llm.generate_answer E (query request) context;
       Returned {| answer := answer; status := "success" |})
    (λ e, Returned (error_response e)).

End services.
End chat.

(** ** [app/api/v1/ingest.py] *)

Module ingest.

(** What the upload endpoint receives: the [Content-Length] header, the name
    of the uploaded file and the form field [user_id], each possibly absent. *)
Record upload_form := {
  content_length : option string;
  filename : option string;
  form_user_id : option string
}.

Record upload_response := {
  up_status : string;
  up_file_id : string;
  up_message : string
}.

(** The result of a handler that may raise [HTTPException]. *)
Inductive http_result (A : Type) :=
| HttpOk (a : A)
| HttpError (status_code : nat) (detail : string).
Global Arguments HttpOk {A} a.
Global Arguments HttpError {A} status_code detail.

(** The parameter [user_id: str = Form("default_user")] when the field may be
    absent from the form. *)
Definition form_default (field : option string) : string :=
  default "default_user" field.

Definition upload_metadata (temp_file_id name user_id ext : string)
  : gmap string pyval :=
  <["file_id" := VStr temp_file_id]>
    (<["filename" := VStr name]>
       (<["user_id" := VStr user_id]> {[ "extension" := VStr ext ]})).

Section services.
Context (E : externals).

Definition _MAX_UPLOAD_BYTES : Z := (MAX_UPLOAD_MB (settings E) * 1024 * 1024)%Z.

Definition _ALLOWED_EXTENSIONS : gset string := ALLOWED_EXTENSIONS (settings E).

Definition os_path_exists (file_path : string) : M bool := λ w,
  (Returned (bool_decide (file_path ∈ w_files w)), w).

(** [os.remove]: the call is recorded; the file goes only when it succeeds. *)
Definition os_remove (file_path : string) : M unit := λ w,
  match os_remove_fault E (w_history w) file_path with
  | Some e => (Raised e, record_event (EvRemove file_path) w)
  | None =>
      if decide (file_path ∈ w_files w) then
        (Returned tt,
         World (w_index w) (w_files w ∖ {[ file_path ]}) (w_tasks w)
               (w_history w ++ [EvRemove file_path]))
      else
        (Raised (Exn OSError
                   ("[Errno 2] No such file or directory: '" +:+ file_path
                      +:+ "'")),
         record_event (EvRemove file_path) w)
  end.

(** The [finally] block. *)
Definition cleanup (file_path : string) : M unit :=
  present ← os_path_exists file_path;
  if present : bool then try_except (os_remove file_path) (λ _, mret tt)
  else mret tt.

(** The [try] block with its [except] clause, which re-raises. *)
Definition pipeline_body (file_path : string) (metadata : gmap string pyval)
  : M unit :=
  try_except
    (chunks ← document.process_file E file_path metadata;
     match chunks with
     | [] => mret tt
     | _ => vector.upsert_chunks E chunks
     end)
    (λ e, raise e).

Definition run_ingestion_pipeline (file_path : string)
    (metadata : gmap string pyval) : M unit :=
  try_finally (pipeline_body file_path metadata) (cleanup file_path).

(** Writing the upload to [file_path]. *)
Definition save_upload (file_path : string) : M unit := λ w,
  match save_fault E (w_history w) file_path with
  | Some e => (Raised e, record_event (EvSave file_path) w)
  | None =>
      (Returned tt,
       World (w_index w) (w_files w ∪ {[ file_path ]}) (w_tasks w)
             (w_history w ++ [EvSave file_path]))
  end.

(** [background_tasks.add_task(run_ingestion_pipeline, file_path, metadata)] *)
Definition add_task (file_path : string) (metadata : gmap string pyval)
    (w : world) : world :=
  World (w_index w) (w_files w) (w_tasks w ++ [(file_path, metadata)])
        (w_history w).

Definition too_large (cl : option string) : bool :=
  match cl with
  | Some text =>
      if bool_decide (text = "") then false
      else match py_int E text with
           | Some n => bool_decide (_MAX_UPLOAD_BYTES < n)%Z
           | None => false
           end
  | None => false
  end.

(** The endpoint.  The helpers it calls on the way ([os.makedirs],
    [os.path.join]) are taken not to fail, so its last [except] clause, which
    turns any other exception into a 500, has nothing to catch; a failed save
    is taken to leave no file behind. *)
Definition upload_document (form : upload_form) (w : world)
  : http_result upload_response * world :=
  let user_id := form_default (form_user_id form) in
  if too_large (content_length form) then
    (HttpError 413
       ("File too large. Maximum size: " +:+ pretty (MAX_UPLOAD_MB (settings E))
          +:+ " MB"), w)
  else match filename form with
  | None | Some "" => (HttpError 400 "No filename provided", w)
  | Some name =>
      let ext := splitext_lower E name in
      if decide (ext ∈ _ALLOWED_EXTENSIONS) then
        let temp_dir := getcwd E +:+ "/data/temp" in
        let temp_file_id := uuid4 E (w_history w) 0 in
        let file_path := temp_dir +:+ "/" +:+ temp_file_id +:+ ext in
        match save_upload file_path w with
        | (Raised e, w') =>
            (HttpError 500 ("Could not save file: " +:+ exn_text e), w')
        | (Returned _, w') =>
            let metadata := upload_metadata temp_file_id name user_id ext in
            (HttpOk {| up_status := "ingestion_started";
                       up_file_id := temp_file_id;
                       up_message := "Your document is being processed and will be available for chat shortly." |},
             add_task file_path metadata w')
        end
      else
        (HttpError 400
           ("Unsupported file type. Allowed: "
              +:+ py_repr E (VList (VStr <$> merge_sort (≤)%string
                                      (elements _ALLOWED_EXTENSIONS)))), w)
  end.

(** The background runner takes the oldest scheduled task and runs it. *)
Definition run_next_task (w : world) : outcome unit * world :=
  match w_tasks w with
  | [] => (Returned tt, w)
  | (file_path, metadata) :: rest =>
      run_ingestion_pipeline file_path metadata
        (World (w_index w) (w_files w) rest (w_history w))
  end.

End services.
End ingest.

(** ** Concrete providers, used to run the model on examples *)

Module demo.

(** [json.dumps] on lists of integers; every other value is refused. *)
Definition json_int_list (v : pyval) : outcome string :=
  match v with
  | VList items =>
      match mapM (λ x, match x with VInt z => Some (pretty z) | _ => None end)
                 items with
      | Some parts => Returned ("[" +:+ join ", " parts +:+ "]")
      | None => Raised (Exn TypeError "Object is not JSON serializable")
      end
  | _ => Raised (Exn TypeError "Object is not JSON serializable")
  end.

(** Providers that never fail: the loader finds [docs] in every file, the
    embedding of a text is its length, every record is equally similar to
    every query, the reranker keeps the order it is given, and the language
    model answers [reply]. *)
Definition providers (docs : list document) (reply : llm_result) : externals := {|
  settings := config.defaults;
  load_and_split := λ _ _, Returned docs;
  uuid4 := λ h i, "uuid-" +:+ pretty (length h) +:+ "-" +:+ pretty i;
  py_repr := λ _, "<repr>";
  model_encode := λ _ texts, Returned ((λ t, [Z.of_nat (len t)]) <$> texts);
  json_dumps := json_int_list;
  index_upsert_fault := λ _ _, None;
  os_remove_fault := λ _ _, None;
  query_encode := λ q, Returned [Z.of_nat (len q)];
  index_query_fault := λ _, None;
  similarity := λ _ _, 0%Z;
  cohere_rerank := λ _ documents top_n _,
    Returned (seq 0 (min top_n (length documents)));
  messages_create := λ _, reply;
  py_int := λ _, None;
  splitext_lower := λ _, ".txt";
  getcwd := "/srv";
  save_fault := λ _ _, None
|}.

(** The same providers with one of them replaced. *)
Definition with_remove_fault (fault : list event → string → option exn)
    (E : externals) : externals := {|
  settings := settings E;
  load_and_split := load_and_split E;
  uuid4 := uuid4 E;
  py_repr := py_repr E;
  model_encode := model_encode E;
  json_dumps := json_dumps E;
  index_upsert_fault := index_upsert_fault E;
  os_remove_fault := fault;
  query_encode := query_encode E;
  index_query_fault := index_query_fault E;
  similarity := similarity E;
  cohere_rerank := cohere_rerank E;
  messages_create := messages_create E;
  py_int := py_int E;
  splitext_lower := splitext_lower E;
  getcwd := getcwd E;
  save_fault := save_fault E
|}.

Definition with_upsert_fault
    (fault : list event → list vector_record → option exn)
    (E : externals) : externals := {|
  settings := settings E;
  load_and_split := load_and_split E;
  uuid4 := uuid4 E;
  py_repr := py_repr E;
  model_encode := model_encode E;
  json_dumps := json_dumps E;
  index_upsert_fault := fault;
  os_remove_fault := os_remove_fault E;
  query_encode := query_encode E;
  index_query_fault := index_query_fault E;
  similarity := similarity E;
  cohere_rerank := cohere_rerank E;
  messages_create := messages_create E;
  py_int := py_int E;
  splitext_lower := splitext_lower E;
  getcwd := getcwd E;
  save_fault := save_fault E
|}.

Definition with_query_fault (fault : vector → option exn) (E : externals)
  : externals := {|
  settings := settings E;
  load_and_split := load_and_split E;
  uuid4 := uuid4 E;
  py_repr := py_repr E;
  model_encode := model_encode E;
  json_dumps := json_dumps E;
  index_upsert_fault := index_upsert_fault E;
  os_remove_fault := os_remove_fault E;
  query_encode := query_encode E;
  index_query_fault := fault;
  similarity := similarity E;
  cohere_rerank := cohere_rerank E;
  messages_create := messages_create E;
  py_int := py_int E;
  splitext_lower := splitext_lower E;
  getcwd := getcwd E;
  save_fault := save_fault E
|}.

Definition reply_ok : llm_result :=
  LLMReturned (Message (Some [TextBlock "42"])).

Definition empty_world : world := World ∅ ∅ [] [].

(** [n] chunks of one document of tenant [u1]. *)
Definition numbered_chunks (n : nat) : list chunk :=
  (λ i, Chunk ("doc#chunk" +:+ pretty i) ("text " +:+ pretty i)
              {[ "user_id" := VStr "u1" ]}) <$> seq 0 n.

(** The index of the isolation test: a secret of tenant [user_alpha_99]
    and, beside it, a record of tenant [user_beta_01]. *)
Definition secret_index : gmap string vector_record :=
  <["doc_1" := VectorRecord "doc_1" [51%Z]
      (<["user_id" := VStr "user_alpha_99"]>
         (<["filename" := VStr "secrets.txt"]>
            {[ "text" :=
                 VStr "The secret password for User A is: 'ORANGE-SUNSET'." ]}))]>
    {[ "doc_2" := VectorRecord "doc_2" [10%Z]
         (<["user_id" := VStr "user_beta_01"]> {[ "text" := VStr "Q3 revenue" ]}) ]}.

(** An index in which tenant [tenant_a] holds the text of three dashes and
    tenant [tenant_b] holds two short texts. *)
Definition dashes_index : gmap string vector_record :=
  <["a1" := VectorRecord "a1" [3%Z]
      (<["user_id" := VStr "tenant_a"]> {[ "text" := VStr "---" ]})]>
    (<["b1" := VectorRecord "b1" [1%Z]
         (<["user_id" := VStr "tenant_b"]> {[ "text" := VStr "x" ]})]>
       {[ "b2" := VectorRecord "b2" [1%Z]
            (<["user_id" := VStr "tenant_b"]> {[ "text" := VStr "y" ]}) ]}).

(** [n] copies of one small chunk. *)
Definition repeated_chunks (n : nat) : list chunk :=
  replicate n (Chunk "c" "t" ∅).

(** An index that refuses the upsert issued as the fourth external call. *)
Definition fourth_call_fails : list event → list vector_record → option exn :=
  λ h _, if (length h =? 3)%nat
         then Some (Exn (OtherException "PineconeApiException") "(503)")
         else None.

Definition remove_denied : list event → string → option exn :=
  λ _ _, Some (Exn OSError "[Errno 13] Permission denied").

End demo.

(** ** Notions used to state the properties *)

Module props.

(** The least number of groups of [d] that hold [n] items. *)
Definition ceil_div (n d : nat) : nat := (n + d - 1) / d.
Global Arguments ceil_div : simpl never.

(** The batches [upsert_chunks] walks through: one slice per index of the
    range. *)
Definition batches (chunks : list chunk) : list (list chunk) :=
  (λ i, slice chunks i (i + vector.batch_size))
    <$> range 0 (length chunks) vector.batch_size.

(** The value types the vector index accepts. *)
Definition index_value (v : pyval) : Prop :=
  match v with
  | VStr _ | VInt _ | VFloat _ | VBool _ => True
  | VList items => Is_true (forallb is_str items)
  | _ => False
  end.

(** Events by kind. *)
Definition is_remove (file_path : string) (ev : event) : bool :=
  match ev with
  | EvRemove p => bool_decide (p = file_path)
  | _ => false
  end.

Definition removals (file_path : string) (h : list event) : nat :=
  length (List.filter (is_remove file_path) h).

Definition index_call (ev : event) : Prop :=
  match ev with
  | EvEncode _ | EvUpsert _ => True
  | _ => False
  end.

(** A record tagged with a tenant. *)
Definition tagged (uid : string) (r : vector_record) : Prop :=
  rec_metadata r !! "user_id" = Some (VStr uid).

Definition tagged_nonempty (r : vector_record) : Prop :=
  ∃ uid, tagged uid r ∧ uid ≠ "".

(** The four ways one turn of the loop can go. *)
Inductive batch_run (E : externals) (b : list chunk) (w : world)
  : outcome unit → world → Prop :=
| batch_encode_fails e :
    model_encode E (w_history w) (chunk_text <$> b) = Raised e →
    batch_run E b w (Raised e) (record_event (EvEncode (chunk_text <$> b)) w)
| batch_sanitize_fails vs e :
    model_encode E (w_history w) (chunk_text <$> b) = Returned vs →
    vector.prepare_records E (zip b vs) = Raised e →
    batch_run E b w (Raised e) (record_event (EvEncode (chunk_text <$> b)) w)
| batch_upsert_fails vs recs e :
    model_encode E (w_history w) (chunk_text <$> b) = Returned vs →
    vector.prepare_records E (zip b vs) = Returned recs →
    index_upsert_fault E (w_history w ++ [EvEncode (chunk_text <$> b)]) recs
      = Some e →
    batch_run E b w (Raised e)
      (World (w_index w) (w_files w) (w_tasks w)
         (w_history w ++ [EvEncode (chunk_text <$> b); EvUpsert recs]))
| batch_done vs recs :
    model_encode E (w_history w) (chunk_text <$> b) = Returned vs →
    vector.prepare_records E (zip b vs) = Returned recs →
    index_upsert_fault E (w_history w ++ [EvEncode (chunk_text <$> b)]) recs
      = None →
    batch_run E b w (Returned tt)
      (World (vector.store_records (w_index w) recs) (w_files w) (w_tasks w)
         (w_history w ++ [EvEncode (chunk_text <$> b); EvUpsert recs])).

(** A description of a run of the loop: the index gains only records that
    satisfy [P], the storage and the schedule are untouched, and the calls
    made are embeddings and upserts of such records. *)
Definition writes_only (P : vector_record → Prop) (w w' : world) : Prop :=
  (∀ id r, w_index w' !! id = Some r → w_index w !! id = Some r ∨ P r)
  ∧ w_files w' = w_files w
  ∧ w_tasks w' = w_tasks w
  ∧ ∃ new, w_history w' = (w_history w ++ new)%list
           ∧ Forall index_call new
           ∧ ∀ recs, EvUpsert recs ∈ new → Forall P recs.

(** The calls of one completed batch: its chunks, the records upserted. *)
Definition batch_events (run : list chunk * list vector_record) : list event :=
  [EvEncode (chunk_text <$> run.1); EvUpsert run.2].

(** The sanitization rule as the specification words it: every value that
    is no scalar and no list of strings is absent afterwards or serialized to
    JSON, the latter exactly when its key is on the allowlist. *)
Definition json_serialized (E : externals) (value : pyval)
    (sanitized : gmap string pyval) (key : string) : Prop :=
  ∃ text, json_dumps E value = Returned text
          ∧ sanitized !! key = Some (VStr text).

Definition claimed_sanitize_rule (E : externals)
    (metadata sanitized : gmap string pyval) : Prop :=
  (∀ key v, sanitized !! key = Some v → index_value v)
  ∧ (∀ key value, metadata !! key = Some value → ¬ index_value value →
       (sanitized !! key = None ∨ json_serialized E value sanitized key)
       ∧ (json_serialized E value sanitized key ↔ key ∈ vector.json_fields)).

(** The answer of the error path as the specification words it: the rule is
    applied to the text truncated to 200 characters. *)
Definition claimed_error_answer (text : string) : string :=
  let truncated := str_take 200 text in
  if bool_decide (truncated = "") then chat.please_try_again
  else if (len truncated <? 50)%nat && chat.quoted truncated
       then chat.please_try_again
  else chat.error_label +:+ truncated.

(** A text stored in the index under tenant [uid]. *)
Definition tenant_text (idx : gmap string vector_record) (uid t : string)
  : Prop :=
  ∃ id r, idx !! id = Some r ∧ tagged uid r
          ∧ rec_metadata r !! "text" = Some (VStr t).

(** The part of the index a query of tenant [uid] can see. *)
Definition tenant_view (uid : string) (idx : gmap string vector_record)
  : gmap string vector_record :=
  filter (λ kv, Is_true (search.matches_filter uid kv.2)) idx.

(** The characters of a string. *)
Definition chars (s : string) : list ascii := list_ascii_of_string s.

End props.
Export props.

(** ** [app/api/v1/ingest.py]: the status endpoint *)

Module status.

Record status_response := {
  st_status : string;
  st_file_id : string;
  st_user_id : string;
  st_chunk_count : nat;
  st_message : string
}.

(** What can go wrong around the endpoint: building the client and opening
    the index, the query that looks for one chunk, the query that counts. *)
Record status_faults := {
  connect_fault : option exn;
  exists_query_fault : option exn;
  count_query_fault : option exn
}.

(** The filter [{"file_id": {"$eq": file_id}, "user_id": {"$eq": user_id}}]
    on one record. *)
Definition matches_file (file_id user_id : string) (r : vector_record) : bool :=
  match rec_metadata r !! "file_id" with
  | Some (VStr s) => bool_decide (s = file_id)
  | _ => false
  end && search.matches_filter user_id r.

Definition unable : string :=
  "Unable to determine status. Document may still be processing.".

Definition still_processing : string :=
  "Document is still being processed. Please wait and check again.".

(** [top_k=10000] of the counting query. *)
Definition count_limit : nat := 100 * 100.

Section services.
Context (E : externals).

#[local] Instance closer_dec query_emb a b
  : Decision (search.closer E query_emb a b) := Z_le_dec _ _.

(** [index.query] with the two-field filter; the index works as for
    [search.index_query]. *)
Definition index_query_file (fault : option exn)
    (idx : gmap string vector_record) (query_emb : vector) (top_k : nat)
    (file_id user_id : string) : outcome (list vector_record) :=
  match fault with
  | Some e => Raised e
  | None =>
      let candidates :=
        (map_to_list
           (filter (λ kv, Is_true (matches_file file_id user_id kv.2)) idx)).*2 in
      Returned (take top_k (merge_sort (search.closer E query_emb) candidates))
  end.

Definition processing (file_id user_id message : string) : status_response :=
  {| st_status := "processing"; st_file_id := file_id; st_user_id := user_id;
     st_chunk_count := 0; st_message := message |}.

Definition get_processing_status (F : status_faults)
    (idx : gmap string vector_record) (file_id user_id : string)
  : ingest.http_result status_response :=
  match connect_fault F with
  | Some e =>
      ingest.HttpError 500
        ("Failed to check processing status: " +:+ exn_text e)
  | None =>
      let dummy_vector := replicate (PINECONE_DIMENSION (settings E)) 0%Z in
      match index_query_file (exists_query_fault F) idx dummy_vector 1
              file_id user_id with
      | Raised _ => ingest.HttpOk (processing file_id user_id unable)
      | Returned [] =>
          ingest.HttpOk (processing file_id user_id still_processing)
      | Returned _ =>
          match index_query_file (count_query_fault F) idx dummy_vector
                  count_limit file_id user_id with
          | Raised _ => ingest.HttpOk (processing file_id user_id unable)
          | Returned count_results =>
              let chunk_count := length count_results in
              ingest.HttpOk
                {| st_status := "completed"; st_file_id := file_id;
                   st_user_id := user_id; st_chunk_count := chunk_count;
                   st_message :=
                     "Document processing completed successfully. "
                       +:+ pretty chunk_count +:+ " chunks indexed." |}
          end
      end
  end.

End services.
End status.

(** ** [tests/test_isolation.py] *)

Module tests.

Definition user_a_id : string := "user_alpha_99".
Definition user_b_id : string := "user_beta_01".
Definition secret : string := "ORANGE-SUNSET".

Definition user_a_data : list chunk :=
  [Chunk "doc_1" "The secret password for User A is: 'ORANGE-SUNSET'."
     (<["user_id" := VStr user_a_id]> {[ "filename" := VStr "secrets.txt" ]})].

(** [t in s], computed: [t] starts [s] or occurs further on. *)
Fixpoint starts (t s : string) : bool :=
  match t, s with
  | "", _ => true
  | String a t', String b s' => bool_decide (a = b) && starts t' s'
  | String _ _, "" => false
  end.

Fixpoint contains (t s : string) : bool :=
  starts t s || match s with
                | String _ s' => contains t s'
                | "" => false
                end.

Inductive verdict :=
| IsolationVerified
| SecurityBreach.

Section services.
Context (E : externals).

(** The query as user B and the assertion on the context. *)
Definition query_as_user_b : M verdict := λ w,
  match search.get_context E (w_index w) "What is the secret password?"
          user_b_id with
  | Returned context =>
      (Returned (if contains secret context then SecurityBreach
                 else IsolationVerified), w)
  | Raised e => (Raised e, w)
  end.

(** The test: what it logs last, unless a call raises. *)
Definition test_multi_tenancy_isolation : M verdict :=
  _ ← vector.upsert_chunks E user_a_data; query_as_user_b.

End services.
End tests.

(** ** Further notions used to state properties *)

Module notions.

(** [n] calls of [get_embedding_model] in a row: the instances returned. *)
Fixpoint get_embedding_model_times (S : Settings) (n : nat)
    (p : embeddings.process) : list nat * embeddings.process :=
  match n with
  | 0 => ([], p)
  | S n' =>
      let '(m, p1) := embeddings.get_embedding_model S p in
      let '(ms, p2) := get_embedding_model_times S n' p1 in
      (m :: ms, p2)
  end.

(** A record that retrieval would skip: no truthy ["text"]. *)
Definition textless (r : vector_record) : Prop :=
  truthy (default (VStr "") (rec_metadata r !! "text")) = false.

(** An index in which every record is stored under its own id. *)
Definition keyed (idx : gmap string vector_record) : Prop :=
  ∀ id r, idx !! id = Some r → rec_id r = id.

(** A parsed dictionary that exercises every branch of the sanitizer. *)
Definition mixed_metadata : gmap string pyval :=
  <["metadata_json" := VList [VInt 1; VInt 2]]>
    (<["coordinates" := VStr "x"]>
       (<["languages" := VList [VStr "eng"]]>
          (<["links" := VNone]> {[ "page" := VInt 3 ]}))).

Definition mixed_sanitized : gmap string pyval :=
  <["metadata_json" := VStr "[1, 2]"]>
    (<["languages" := VList [VStr "eng"]]> {[ "page" := VInt 3 ]}).

(** The records of a file of a tenant. *)
Definition file_records (file_id user_id : string)
    (idx : gmap string vector_record) : gmap string vector_record :=
  filter (λ kv, Is_true (status.matches_file file_id user_id kv.2)) idx.

(** Providers whose embedding model answers with one vector whatever the
    number of texts. *)
Definition one_vector (E : externals) : externals := {|
  settings := settings E;
  load_and_split := load_and_split E;
  uuid4 := uuid4 E;
  py_repr := py_repr E;
  model_encode := λ _ texts, Returned (take 1 ((λ _, [0%Z]) <$> texts));
  json_dumps := json_dumps E;
  index_upsert_fault := index_upsert_fault E;
  os_remove_fault := os_remove_fault E;
  query_encode := query_encode E;
  index_query_fault := index_query_fault E;
  similarity := similarity E;
  cohere_rerank := cohere_rerank E;
  messages_create := messages_create E;
  py_int := py_int E;
  splitext_lower := splitext_lower E;
  getcwd := getcwd E;
  save_fault := save_fault E
|}.

(** Providers whose reranker names the eighth document whatever it is
    given. *)
Definition stray_rerank (E : externals) : externals := {|
  settings := settings E;
  load_and_split := load_and_split E;
  uuid4 := uuid4 E;
  py_repr := py_repr E;
  model_encode := model_encode E;
  json_dumps := json_dumps E;
  index_upsert_fault := index_upsert_fault E;
  os_remove_fault := os_remove_fault E;
  query_encode := query_encode E;
  index_query_fault := index_query_fault E;
  similarity := similarity E;
  cohere_rerank := λ _ _ _ _, Returned [7];
  messages_create := messages_create E;
  py_int := py_int E;
  splitext_lower := splitext_lower E;
  getcwd := getcwd E;
  save_fault := save_fault E
|}.

Definition two_chunks : list chunk :=
  [Chunk "a" "one" {[ "user_id" := VStr "u1" ]};
   Chunk "b" "two" {[ "user_id" := VStr "u1" ]}].

Definition two_documents : list document :=
  [Document "alpha" [(VStr "page", VInt 1); (VStr "user_id", VStr "parser")];
   Document "beta" [(VStr "links", VNone)]].

End notions.
Export notions.

(** * Properties *)

Local Open Scope nat_scope.
Local Open Scope list_scope.

(** ** Strings, ranges and batches *)

Section ranges.

Lemma ceil_div_0 d : ceil_div 0 d = 0.
Proof.
  unfold ceil_div. destruct d as [|d]; [done|].
  apply Nat.div_small. lia.
Qed.

Lemma ceil_div_step n d :
  0 < d → 0 < n → ceil_div n d = S (ceil_div (n - d) d).
Proof.
  intros Hd Hn. unfold ceil_div.
  destruct (decide (n ≤ d)) as [Hle|Hgt].
  - replace (n - d) with 0 by lia.
    rewrite (Nat.div_small (0 + d - 1) d) by lia.
    replace (n + d - 1) with ((n - 1) + 1 * d) by lia.
    rewrite Nat.div_add by lia. rewrite Nat.div_small by lia. done.
  - replace (n + d - 1) with ((n - d + d - 1) + 1 * d) by lia.
    rewrite Nat.div_add by lia. lia.
Qed.

Lemma range_loop_spec fuel i stop step :
  0 < step → stop - i ≤ fuel →
  range_loop fuel i stop step
  = (λ j, i + j * step) <$> seq 0 (ceil_div (stop - i) step).
Proof.
  intros Hstep. revert i.
  induction fuel as [|fuel IH]; intros i Hfuel; simpl.
  - replace (stop - i) with 0 by lia. by rewrite ceil_div_0.
  - destruct (Nat.ltb_spec i stop) as [Hlt|Hge].
    + rewrite (ceil_div_step (stop - i) step) by lia.
      rewrite IH by lia. simpl. f_equal; [lia|].
      replace (stop - i - step) with (stop - (i + step)) by lia.
      rewrite <- fmap_S_seq, <- list_fmap_compose.
      apply list_fmap_ext. intros _ j _. simpl. lia.
    + replace (stop - i) with 0 by lia. by rewrite ceil_div_0.
Qed.

(** [range(0, n, step)] is [0, step, 2*step, ...] with [ceil(n/step)]
    entries: the fuel is enough. *)
Lemma range_spec n step :
  0 < step → range 0 n step = (λ j, j * step) <$> seq 0 (ceil_div n step).
Proof.
  intros Hstep. unfold range. rewrite range_loop_spec by lia.
  rewrite Nat.sub_0_r. done.
Qed.

End ranges.

Section batching.

Lemma ceil_div_bounds n d :
  0 < d → n ≤ ceil_div n d * d ∧ ceil_div n d * d < n + d.
Proof.
  intros Hd. unfold ceil_div.
  pose proof (Nat.div_mod_eq (n + d - 1) d) as Hdm.
  pose proof (Nat.mod_upper_bound (n + d - 1) d) as Hub.
  split; nia.
Qed.

Lemma ceil_div_unique n d q :
  0 < d → n ≤ q * d → q * d < n + d → ceil_div n d = q.
Proof.
  intros Hd H1 H2. destruct (ceil_div_bounds n d Hd) as [H3 H4]. nia.
Qed.

Lemma ceil_div_lt n d j : 0 < d → j < ceil_div n d → j * d < n.
Proof.
  intros Hd Hj. destruct (ceil_div_bounds n d Hd) as [H3 H4]. nia.
Qed.

Lemma batches_spec chunks :
  batches chunks
  = (λ j, take 100 (drop (j * 100) chunks))
      <$> seq 0 (ceil_div (length chunks) 100).
Proof.
  unfold batches, slice, vector.batch_size.
  rewrite range_spec by lia. rewrite <- list_fmap_compose.
  apply list_fmap_ext. intros _ j _. simpl. f_equal. lia.
Qed.

Lemma concat_batches_prefix (l : list chunk) k :
  concat ((λ j, take 100 (drop (j * 100) l)) <$> seq 0 k) = take (k * 100) l.
Proof.
  induction k as [|k IH]; [done|].
  rewrite seq_S, fmap_app, concat_app, IH. simpl.
  rewrite app_nil_r, take_take_drop. f_equal. lia.
Qed.

(** The batches are contiguous and, put end to end, give the input back. *)
Lemma concat_batches chunks : concat (batches chunks) = chunks.
Proof.
  rewrite batches_spec, concat_batches_prefix. apply take_ge.
  destruct (ceil_div_bounds (length chunks) 100); lia.
Qed.

Lemma length_batches chunks :
  length (batches chunks) = ceil_div (length chunks) 100.
Proof. by rewrite batches_spec, length_fmap, length_seq. Qed.

Lemma batches_lookup chunks k b :
  batches chunks !! k = Some b →
  b = take 100 (drop (k * 100) chunks) ∧ k * 100 < length chunks.
Proof.
  rewrite batches_spec, list_lookup_fmap. intros Hk.
  destruct (seq 0 (ceil_div (length chunks) 100) !! k) as [j|] eqn:Hj;
    simplify_eq/=.
  apply lookup_seq in Hj as [-> Hlt]. split; [done|].
  apply ceil_div_lt; lia.
Qed.

Lemma batches_bounds chunks :
  Forall (λ b, 0 < length b ≤ 100) (batches chunks).
Proof.
  apply Forall_lookup. intros k b Hk.
  apply batches_lookup in Hk as [-> Hlt].
  rewrite length_take, length_drop. lia.
Qed.

Lemma batches_take chunks k :
  k ≤ length (batches chunks) →
  batches (take (k * 100) chunks) = take k (batches chunks).
Proof.
  rewrite length_batches. intros Hk.
  rewrite !batches_spec, length_take.
  assert (ceil_div ((k * 100) `min` length chunks) 100 = k) as ->.
  { destruct (ceil_div_bounds (length chunks) 100) as [H1 H2]; [lia|].
    apply ceil_div_unique; lia. }
  rewrite <- fmap_take, take_seq.
  replace (k `min` ceil_div (length chunks) 100) with k by lia.
  apply list_fmap_ext. intros i j Hj. apply lookup_seq in Hj as [-> Hlt].
  simpl. rewrite skipn_firstn_comm, take_take. f_equal. lia.
Qed.

End batching.

(** ** The state-and-exception monad *)

Section monad.
Context (E : externals).

Lemma bind_returned {A B} (m : M A) (k : A → M B) w a w' :
  m w = (Returned a, w') → (m ≫= k) w = k a w'.
Proof. intros H. unfold mbind, M_bind. by rewrite H. Qed.

Lemma bind_raised {A B} (m : M A) (k : A → M B) w e w' :
  m w = (Raised e, w') → (m ≫= k) w = (Raised e, w').
Proof. intros H. unfold mbind, M_bind. by rewrite H. Qed.

Lemma for_each_cons {A} (x : A) xs (body : A → M unit) w :
  for_each (x :: xs) body w
  = match body x w with
    | (Returned _, w') => for_each xs body w'
    | (Raised e, w') => (Raised e, w')
    end.
Proof. simpl. unfold mbind, M_bind. done. Qed.

Lemma for_each_app {A} (xs ys : list A) (body : A → M unit) w :
  for_each (xs ++ ys) body w
  = match for_each xs body w with
    | (Returned _, w') => for_each ys body w'
    | (Raised e, w') => (Raised e, w')
    end.
Proof.
  revert w. induction xs as [|x xs IH]; intros w; [done|].
  rewrite <- app_comm_cons, !for_each_cons.
  destruct (body x w) as [[[]|e] w1]; [apply IH|done].
Qed.

Lemma for_each_fmap {A B} (f : A → B) (xs : list A) (body : B → M unit) w :
  for_each (f <$> xs) body w = for_each xs (λ x, body (f x)) w.
Proof.
  revert w. induction xs as [|x xs IH]; intros w; [done|].
  rewrite fmap_cons, !for_each_cons.
  destruct (body (f x) w) as [[[]|e] w1]; [apply IH|done].
Qed.

(** [upsert_chunks] runs [upsert_batch] on the batches, in order. *)
Lemma upsert_chunks_batches chunks w :
  vector.upsert_chunks E chunks w
  = for_each (batches chunks) (vector.upsert_batch E) w.
Proof.
  unfold batches. rewrite for_each_fmap. by destruct chunks.
Qed.

Lemma upsert_batch_run b w :
  batch_run E b w (vector.upsert_batch E b w).1 (vector.upsert_batch E b w).2.
Proof.
  unfold vector.upsert_batch, try_except, mbind, M_bind, vector.encode_batch,
    lift, vector.index_upsert, raise.
  destruct (model_encode E (w_history w) (chunk_text <$> b)) as [vs|e] eqn:Henc;
    simpl; [|by constructor].
  destruct (vector.prepare_records E (zip b vs)) as [recs|e] eqn:Hprep;
    simpl; [|by econstructor].
  destruct (index_upsert_fault E _ recs) as [e|] eqn:Hup; simpl.
  - unfold record_event; simpl. rewrite <- app_assoc.
    by eapply batch_upsert_fails.
  - rewrite <- app_assoc. by eapply batch_done.
Qed.

End monad.

(** ** Metadata sanitization *)

Section sanitize.
Context (E : externals).

(** The loop treats every field on its own: the sanitized dictionary holds,
    under each key of the input, what [sanitize_field] keeps of its value. *)
Lemma sanitize_lookup metadata sanitized :
  vector._sanitize_metadata E metadata = Returned sanitized →
  ∀ key,
    match metadata !! key with
    | None => sanitized !! key = None
    | Some value =>
        ∃ field, vector.sanitize_field E key value = Returned field
                 ∧ sanitized !! key = field
    end.
Proof.
  unfold vector._sanitize_metadata. revert sanitized.
  apply (map_fold_weak_ind (λ r m, ∀ sanitized, r = Returned sanitized →
    ∀ key, match m !! key with
           | None => sanitized !! key = None
           | Some value =>
               ∃ field, vector.sanitize_field E key value = Returned field
                        ∧ sanitized !! key = field
           end)).
  - intros sanitized [= <-] key. by rewrite !lookup_empty.
  - intros i x m r Hi IH sanitized Hstep key.
    unfold vector.sanitize_step in Hstep.
    destruct r as [acc|e]; simpl in Hstep; [|done].
    destruct (vector.sanitize_field E i x) as [field|e] eqn:Hfield;
      simpl in Hstep; [|done].
    injection Hstep as <-.
    specialize (IH acc eq_refl).
    destruct (decide (i = key)) as [->|Hne].
    + rewrite lookup_insert_eq. exists field. split; [done|].
      specialize (IH key). rewrite Hi in IH.
      destruct field; [by rewrite lookup_insert_eq|done].
    + rewrite lookup_insert_ne by done. specialize (IH key).
      destruct field; [by rewrite lookup_insert_ne|done].
Qed.

(** When the loop raises, one of the fields did. *)
Lemma sanitize_raises metadata e :
  vector._sanitize_metadata E metadata = Raised e →
  ∃ key value, metadata !! key = Some value
               ∧ vector.sanitize_field E key value = Raised e.
Proof.
  unfold vector._sanitize_metadata.
  apply (map_fold_weak_ind (λ r m, r = Raised e →
    ∃ key value, m !! key = Some value
                 ∧ vector.sanitize_field E key value = Raised e)); [done|].
  intros i x m r Hi IH Hstep. unfold vector.sanitize_step in Hstep.
  destruct r as [acc|e']; simpl in Hstep.
  - destruct (vector.sanitize_field E i x) as [field|e'] eqn:Hfield;
      simpl in Hstep; [done|]. injection Hstep as ->.
    exists i, x. by rewrite lookup_insert_eq.
  - destruct (IH Hstep) as (key & value & Hk & Hf).
    exists key, value. split; [|done].
    rewrite lookup_insert_ne; [done|]. intros ->. congruence.
Qed.

(** Only [json.dumps], on a field of the allowlist, can make a field raise. *)
Lemma sanitize_field_raises key value e :
  vector.sanitize_field E key value = Raised e →
  key ∈ vector.json_fields ∧ json_dumps E value = Raised e
  ∧ ¬ index_value value.
Proof.
  unfold vector.sanitize_field. intros H.
  destruct (decide (key ∈ vector.exclude_fields)); [done|].
  destruct value as [| | | | |items|items|o]; try done.
  - destruct (forallb is_str items) eqn:Hall; [done|].
    destruct (decide (key ∈ vector.json_fields)); [|done].
    destruct (json_dumps E (VList items)) eqn:Hj; simplify_eq/=.
    split_and!; [done..|]. rewrite Hall. tauto.
  - destruct (decide (key ∈ vector.json_fields)); [|done].
    destruct (json_dumps E (VDict items)) eqn:Hj; simplify_eq/=.
    split_and!; [done..|]. tauto.
  - by destruct (obj_str o).
Qed.

(** What one field becomes, case by case. *)
Lemma sanitize_field_value key value field :
  vector.sanitize_field E key value = Returned (Some field) →
  index_value field.
Proof.
  unfold vector.sanitize_field. intros H.
  destruct (decide (key ∈ vector.exclude_fields)); [done|].
  destruct value as [| | | | |items|items|o]; simplify_eq/=; try done.
  - destruct (forallb is_str items) eqn:Hall; simplify_eq/=.
    + by rewrite Hall.
    + destruct (decide (key ∈ vector.json_fields)); [|done].
      by destruct (json_dumps E (VList items)); simplify_eq/=.
  - destruct (decide (key ∈ vector.json_fields)); [|done].
    by destruct (json_dumps E (VDict items)); simplify_eq/=.
  - by destruct (obj_str o); simplify_eq/=.
Qed.

(** A string passes unchanged unless its key is excluded. *)
Lemma sanitize_keeps_string metadata sanitized key s :
  key ∉ vector.exclude_fields →
  vector._sanitize_metadata E metadata = Returned sanitized →
  metadata !! key = Some (VStr s) →
  sanitized !! key = Some (VStr s).
Proof.
  intros Hkey Hsan Hlook. pose proof (sanitize_lookup _ _ Hsan key) as H.
  rewrite Hlook in H. destruct H as (field & Hfield & ->).
  unfold vector.sanitize_field in Hfield.
  destruct (decide (key ∈ vector.exclude_fields)); [done|]. congruence.
Qed.

End sanitize.

(** ** What the ingestion path writes *)

Section writes.
Context (E : externals).

Lemma store_records_lookup idx recs id r :
  vector.store_records idx recs !! id = Some r →
  idx !! id = Some r ∨ r ∈ recs.
Proof.
  unfold vector.store_records. revert idx.
  induction recs as [|x recs IH]; intros idx H; simpl in H; [by left|].
  apply IH in H as [H|H]; [|right; by constructor].
  destruct (decide (rec_id x = id)) as [<-|Hne].
  - rewrite lookup_insert_eq in H. injection H as <-. right. constructor.
  - rewrite lookup_insert_ne in H by done. by left.
Qed.

Lemma prepare_records_spec pairs recs :
  vector.prepare_records E pairs = Returned recs →
  Forall2 (λ p r, rec_id r = chunk_id p.1 ∧ rec_values r = p.2
                  ∧ vector._sanitize_metadata E (chunk_metadata p.1)
                    = Returned (rec_metadata r)) pairs recs.
Proof.
  revert recs. induction pairs as [|[c emb] pairs IH]; intros recs H;
    simpl in H.
  - injection H as <-. constructor.
  - destruct (vector._sanitize_metadata E (chunk_metadata c)) as [san|]
      eqn:Hsan; simpl in H; [|done].
    destruct (vector.prepare_records E pairs) as [rest|] eqn:Hrest;
      simpl in H; [|done].
    injection H as <-. constructor; [done|]. by apply IH.
Qed.

Lemma prepare_records_length pairs recs :
  vector.prepare_records E pairs = Returned recs →
  length recs = length pairs.
Proof.
  intros H. apply prepare_records_spec in H.
  by apply Forall2_length in H.
Qed.

(** Every prepared record comes from a chunk of the batch and carries the
    sanitized metadata of that chunk. *)
Lemma prepare_records_from (b : list chunk) (vs : list vector) recs r :
  vector.prepare_records E (zip b vs) = Returned recs →
  r ∈ recs →
  ∃ c, c ∈ b ∧ rec_id r = chunk_id c
       ∧ vector._sanitize_metadata E (chunk_metadata c)
         = Returned (rec_metadata r).
Proof.
  intros H Hr. apply prepare_records_spec in H.
  apply list_elem_of_lookup in Hr as [i Hi].
  destruct (Forall2_lookup_r _ _ _ _ _ H Hi) as ([c emb] & Hp & Hid & _ & Hs).
  exists c. split_and!; [|done..].
  apply list_elem_of_lookup_2 in Hp.
  apply (elem_of_zip_l _ _ _ _ Hp).
Qed.

Lemma writes_only_refl P w : writes_only P w w.
Proof.
  split_and!; [by left|done..|]. exists []. rewrite app_nil_r.
  split_and!; [done|constructor|]. intros recs H. by apply elem_of_nil in H.
Qed.

Lemma writes_only_trans P w1 w2 w3 :
  writes_only P w1 w2 → writes_only P w2 w3 → writes_only P w1 w3.
Proof.
  intros (Hi1 & Hf1 & Ht1 & n1 & Hh1 & Hc1 & Hu1)
         (Hi2 & Hf2 & Ht2 & n2 & Hh2 & Hc2 & Hu2).
  split_and!; [|congruence..|].
  - intros id r H. apply Hi2 in H as [H|H]; [by apply Hi1|by right].
  - exists (n1 ++ n2). rewrite Hh2, Hh1, app_assoc.
    split_and!; [done|by apply Forall_app|].
    intros recs [H|H]%elem_of_app; [by apply Hu1|by apply Hu2].
Qed.

Lemma batch_run_writes (P : vector_record → Prop) b w r w' :
  (∀ c san emb, c ∈ b →
     vector._sanitize_metadata E (chunk_metadata c) = Returned san →
     P (VectorRecord (chunk_id c) emb san)) →
  batch_run E b w r w' → writes_only P w w'.
Proof.
  intros HP Hrun.
  assert (∀ vs recs, vector.prepare_records E (zip b vs) = Returned recs →
                     Forall P recs) as Hrecs.
  { intros vs recs Hprep. apply Forall_forall. intros x Hx.
    destruct (prepare_records_from _ _ _ _ Hprep Hx) as (c & Hc & Hid & Hs).
    destruct x as [id vals md]; simpl in *; subst. by eapply HP. }
  destruct Hrun as [e He|vs e He Hp|vs recs e He Hp Hf|vs recs He Hp Hf];
    unfold record_event; simpl.
  - split_and!; [by left|done..|]. eexists. split_and!; [done|by repeat constructor|].
    intros recs H. apply list_elem_of_singleton in H. done.
  - split_and!; [by left|done..|]. eexists. split_and!; [done|by repeat constructor|].
    intros recs H. apply list_elem_of_singleton in H. done.
  - split_and!; [by left|done..|]. eexists. split_and!; [done|by repeat constructor|].
    intros recs' H. apply elem_of_cons in H as [H|H]; [done|].
    apply list_elem_of_singleton in H. injection H as ->. by eapply Hrecs.
  - split_and!; [|done..|].
    + intros id r H. simpl in H. apply store_records_lookup in H as [H|H];
        [by left|right]. specialize (Hrecs _ _ Hp).
      by eapply Forall_forall in Hrecs.
    + eexists. split_and!; [done|by repeat constructor|].
      intros recs' H. apply elem_of_cons in H as [H|H]; [done|].
      apply list_elem_of_singleton in H. injection H as ->. by eapply Hrecs.
Qed.

Lemma for_each_batches_writes (P : vector_record → Prop) bs w :
  (∀ b c san emb, b ∈ bs → c ∈ b →
     vector._sanitize_metadata E (chunk_metadata c) = Returned san →
     P (VectorRecord (chunk_id c) emb san)) →
  writes_only P w (for_each bs (vector.upsert_batch E) w).2.
Proof.
  revert w. induction bs as [|b bs IH]; intros w HP.
  - apply writes_only_refl.
  - rewrite for_each_cons.
    pose proof (upsert_batch_run E b w) as Hrun.
    destruct (vector.upsert_batch E b w) as [[[]|e] w1]; simpl in Hrun.
    + eapply writes_only_trans.
      * eapply batch_run_writes; [|done]. intros. eapply HP; [left|done..].
      * apply IH. intros. eapply HP; [by right|done..].
    + eapply batch_run_writes; [|done]. intros. eapply HP; [left|done..].
Qed.

(** [upsert_chunks], whatever its outcome, writes only sanitized records of
    the chunks it was given. *)
Lemma upsert_chunks_writes (P : vector_record → Prop) chunks w :
  (∀ c san emb, c ∈ chunks →
     vector._sanitize_metadata E (chunk_metadata c) = Returned san →
     P (VectorRecord (chunk_id c) emb san)) →
  writes_only P w (vector.upsert_chunks E chunks w).2.
Proof.
  intros HP. rewrite upsert_chunks_batches.
  apply for_each_batches_writes. intros b c san emb Hb Hc. apply HP.
  rewrite <- (concat_batches chunks).
  apply list_elem_of_In, in_concat. exists b.
  split; by apply list_elem_of_In.
Qed.

End writes.

(** ** Batching and partial success of [upsert_chunks] *)

Section upsert.
Context (E : externals).

Lemma prepare_records_total pairs :
  (∀ p, p ∈ pairs →
     is_returned (vector._sanitize_metadata E (chunk_metadata p.1))) →
  is_returned (vector.prepare_records E pairs).
Proof.
  induction pairs as [|[c emb] pairs IH]; intros Hok; simpl; [done|].
  pose proof (Hok (c, emb) ltac:(left)) as Hs. simpl in Hs.
  destruct (vector._sanitize_metadata E (chunk_metadata c)); [|done].
  simpl. destruct (vector.prepare_records E pairs); [done|].
  apply IH. intros p Hp. apply Hok. by right.
Qed.

(** A loop that completes made, for each batch in order, one embedding call
    on the texts of the batch and one upsert, and stored what it upserted. *)
Lemma for_each_batches_returned bs w w' :
  for_each bs (vector.upsert_batch E) w = (Returned tt, w') →
  ∃ runs : list (list chunk * list vector_record),
    runs.*1 = bs
    ∧ Forall (λ run, length run.2 ≤ length run.1) runs
    ∧ w_history w' = w_history w ++ concat (batch_events <$> runs)
    ∧ w_index w' = foldl vector.store_records (w_index w) runs.*2.
Proof.
  revert w. induction bs as [|b bs IH]; intros w H.
  - injection H as <-. exists []. by rewrite app_nil_r.
  - rewrite for_each_cons in H.
    pose proof (upsert_batch_run E b w) as Hrun.
    destruct (vector.upsert_batch E b w) as [[[]|e] w1]; [|done].
    simpl in Hrun. inversion Hrun as [| | |vs recs Henc Hprep Hfault]; subst.
    apply IH in H as (runs & Hruns & Hlen & Hhist & Hidx).
    exists ((b, recs) :: runs). split_and!.
    + by rewrite fmap_cons, Hruns.
    + constructor; [|done]. simpl.
      rewrite (prepare_records_length _ _ _ Hprep), length_zip. lia.
    + rewrite Hhist. simpl. rewrite <- app_assoc. done.
    + done.
Qed.

(** C7.  When no provider fails, [upsert_chunks] returns normally after
    cutting the chunks, in order, into [ceil(N/100)] contiguous batches of at
    most 100 chunks, and its calls are, for each batch in turn, exactly one
    embedding call on the texts of that batch followed by exactly one upsert
    call. *)
Theorem upsert_chunks_batching chunks w :
  (∀ h texts, is_returned (model_encode E h texts)) →
  (∀ c, c ∈ chunks →
     is_returned (vector._sanitize_metadata E (chunk_metadata c))) →
  (∀ h recs, index_upsert_fault E h recs = None) →
  ∃ w' (runs : list (list chunk * list vector_record)),
    vector.upsert_chunks E chunks w = (Returned tt, w')
    ∧ concat runs.*1 = chunks
    ∧ length runs = ceil_div (length chunks) 100
    ∧ Forall (λ run, 0 < length run.1 ≤ 100
                     ∧ length run.2 ≤ length run.1) runs
    ∧ w_history w' = w_history w ++ concat (batch_events <$> runs).
Proof.
  intros Henc Hsan Hfault.
  assert (∀ bs w0, (∀ b c, b ∈ bs → c ∈ b → c ∈ chunks) →
            ∃ w1, for_each bs (vector.upsert_batch E) w0 = (Returned tt, w1))
    as Htotal.
  { induction bs as [|b bs IH]; intros w0 Hsub; [by eexists|].
    rewrite for_each_cons.
    pose proof (upsert_batch_run E b w0) as Hrun.
    destruct (vector.upsert_batch E b w0) as [[[]|e] w1].
    { apply IH. intros b' c Hb' Hc. apply (Hsub b' c); [by right|done]. }
    simpl in Hrun. exfalso.
    inversion Hrun as [e' He|vs e' He Hp|vs recs e' He Hp Hf|]; subst.
    - specialize (Henc (w_history w0) (chunk_text <$> b)).
      by rewrite He in Henc.
    - assert (is_returned (vector.prepare_records E (zip b vs))) as Ht.
      { apply prepare_records_total. intros [c emb] Hp'. simpl.
        apply Hsan, (Hsub b c); [left|]. by apply elem_of_zip_l in Hp'. }
      by rewrite Hp in Ht.
    - by rewrite Hfault in Hf. }
  destruct (Htotal (batches chunks) w) as [w' Hw'].
  { intros b c Hb Hc. rewrite <- (concat_batches chunks).
    apply list_elem_of_In, in_concat. exists b.
    split; by apply list_elem_of_In. }
  destruct (for_each_batches_returned _ _ _ Hw')
    as (runs & Hruns & Hlen & Hhist & _).
  exists w', runs. split_and!.
  - by rewrite upsert_chunks_batches.
  - rewrite Hruns. apply concat_batches.
  - rewrite <- length_batches, <- Hruns. by rewrite length_fmap.
  - pose proof (batches_bounds chunks) as Hb. rewrite <- Hruns in Hb.
    apply Forall_fmap in Hb. apply Forall_and. by split.
  - done.
Qed.

(** C5.  Let the first [k] batches go through, leaving the world [wk], and
    let the embedding or the upsert of batch [k] fail with [e].  Then
    [upsert_chunks] raises [e]; the index is as the first [k] batches left
    it; after the calls of those batches the history ends with the attempt
    on batch [k] (one embedding call, and the upsert call if it was the
    upsert that failed), so nothing is attempted for a later batch; and the
    calls made are embeddings and upserts only: no delete. *)
Theorem upsert_chunks_partial_success chunks w k b wk e :
  batches chunks !! k = Some b →
  vector.upsert_chunks E (take (k * 100) chunks) w = (Returned tt, wk) →
  (model_encode E (w_history wk) (chunk_text <$> b) = Raised e
   ∨ ∃ vs recs,
       model_encode E (w_history wk) (chunk_text <$> b) = Returned vs
       ∧ vector.prepare_records E (zip b vs) = Returned recs
       ∧ index_upsert_fault E
           (w_history wk ++ [EvEncode (chunk_text <$> b)]) recs = Some e) →
  ∃ w' (runs : list (list chunk * list vector_record)) attempt,
    vector.upsert_chunks E chunks w = (Raised e, w')
    ∧ runs.*1 = take k (batches chunks)
    ∧ w_index w' = foldl vector.store_records (w_index w) runs.*2
    ∧ w_index w' = w_index wk
    ∧ w_history w'
      = w_history w ++ concat (batch_events <$> runs)
          ++ EvEncode (chunk_text <$> b) :: attempt
    ∧ (attempt = [] ∨ ∃ recs, attempt = [EvUpsert recs])
    ∧ Forall index_call (concat (batch_events <$> runs)
                           ++ EvEncode (chunk_text <$> b) :: attempt).
Proof.
  intros Hb Hprefix Hfail.
  assert (k < length (batches chunks)) as Hk by (by eapply lookup_lt_Some).
  rewrite upsert_chunks_batches, batches_take in Hprefix by lia.
  destruct (for_each_batches_returned _ _ _ Hprefix)
    as (runs & Hruns & _ & Hhist & Hidx).
  assert (Forall index_call (concat (batch_events <$> runs))) as Hcalls.
  { apply Forall_concat, Forall_fmap, Forall_forall. intros run _.
    by repeat constructor. }
  assert (∃ w' attempt,
            vector.upsert_batch E b wk = (Raised e, w')
            ∧ w_index w' = w_index wk
            ∧ w_history w'
              = w_history wk ++ EvEncode (chunk_text <$> b) :: attempt
            ∧ (attempt = [] ∨ ∃ recs, attempt = [EvUpsert recs]))
    as (w' & attempt & Hbatch & Hsame & Hhist' & Hattempt).
  { pose proof (upsert_batch_run E b wk) as Hrun.
    destruct (vector.upsert_batch E b wk) as [r w1]. simpl in Hrun.
    destruct Hfail as [Henc|(vs & recs & Henc & Hprep & Hup)];
      inversion Hrun as [e' He|vs' e' He Hp|vs' recs' e' He Hp Hf
                        |vs' recs' He Hp Hf]; subst; try congruence.
    - assert (e' = e) as -> by congruence.
      exists (record_event (EvEncode (chunk_text <$> b)) wk), [].
      split_and!; [done..|by left].
    - assert (vs' = vs) as -> by congruence.
      assert (recs' = recs) as -> by congruence.
      assert (e' = e) as -> by congruence.
      eexists _, [EvUpsert recs]. split_and!; [done..|eauto]. }
  exists w', runs, attempt.
  rewrite upsert_chunks_batches.
  rewrite <- (take_drop_middle _ _ _ Hb), for_each_app, Hprefix.
  rewrite for_each_cons, Hbatch.
  split_and!; [done| |congruence|done| |done|].
  - rewrite take_app_length'; [done|]. rewrite length_take. lia.
  - rewrite Hhist', Hhist, <- app_assoc. done.
  - apply Forall_app. split; [done|]. constructor; [done|].
    destruct Hattempt as [->|[recs ->]]; by repeat constructor.
Qed.

End upsert.

(** ** C6: the sanitization rule *)

Section sanitize_rule.
Context (E : externals).

Lemma allowlist_not_excluded key :
  key ∈ vector.json_fields → key ∉ vector.exclude_fields.
Proof.
  unfold vector.json_fields. intros ->%elem_of_singleton.
  apply (bool_decide_eq_false_1 ("metadata_json" ∈ vector.exclude_fields)).
  by vm_compute.
Qed.

(** C6, as the code has it.  The sanitized metadata holds only strings,
    numbers, booleans and lists of strings.  Of the other values: [None] is
    always dropped; a dictionary or a list with an element that is no string
    is serialized to JSON when its key is on the allowlist and dropped
    otherwise; a value of any other type is replaced by its [str()]
    conversion whatever its key, and dropped when the conversion raises or
    the key is on the exclusion list. *)
Theorem sanitize_metadata_rule metadata sanitized :
  vector._sanitize_metadata E metadata = Returned sanitized →
  (∀ key v, sanitized !! key = Some v → index_value v)
  ∧ (∀ key value, metadata !! key = Some value → ¬ index_value value →
       match value with
       | VList _ | VDict _ =>
           if decide (key ∈ vector.json_fields)
           then json_serialized E value sanitized key
           else sanitized !! key = None
       | VOther o =>
           match obj_str o with
           | Returned text =>
               if decide (key ∈ vector.exclude_fields)
               then sanitized !! key = None
               else sanitized !! key = Some (VStr text)
           | Raised _ => sanitized !! key = None
           end
       | _ => sanitized !! key = None
       end).
Proof.
  intros Hsan. split.
  - intros key v Hv. pose proof (sanitize_lookup E _ _ Hsan key) as H.
    destruct (metadata !! key) as [value|]; [|congruence].
    destruct H as (field & Hfield & Hlook). rewrite Hv in Hlook. subst field.
    by eapply sanitize_field_value.
  - intros key value Hlook Hbad.
    pose proof (sanitize_lookup E _ _ Hsan key) as H. rewrite Hlook in H.
    destruct H as (field & Hfield & Hres).
    unfold vector.sanitize_field in Hfield.
    destruct value as [| | | | |items|items|o]; simpl in Hbad;
      try (exfalso; by apply Hbad).
    + by destruct (decide (key ∈ vector.exclude_fields)); simplify_eq.
    + destruct (forallb is_str items) eqn:Hall; [by destruct Hbad|].
      destruct (decide (key ∈ vector.json_fields)) as [Hin|Hout].
      * destruct (decide (key ∈ vector.exclude_fields)) as [Hex|_];
          [by apply allowlist_not_excluded in Hin|].
        destruct (json_dumps E (VList items)) as [text|] eqn:Hj;
          simplify_eq/=. by exists text.
      * by destruct (decide (key ∈ vector.exclude_fields)); simplify_eq.
    + destruct (decide (key ∈ vector.json_fields)) as [Hin|Hout].
      * destruct (decide (key ∈ vector.exclude_fields)) as [Hex|_];
          [by apply allowlist_not_excluded in Hin|].
        destruct (json_dumps E (VDict items)) as [text|] eqn:Hj;
          simplify_eq/=. by exists text.
      * by destruct (decide (key ∈ vector.exclude_fields)); simplify_eq.
    + destruct (obj_str o) as [text|];
        by destruct (decide (key ∈ vector.exclude_fields)); simplify_eq.
Qed.

(** The loop raises only when [json.dumps] refuses the value of a field of
    the allowlist. *)
Lemma sanitize_metadata_raises metadata e :
  vector._sanitize_metadata E metadata = Raised e →
  ∃ key value, key ∈ vector.json_fields ∧ metadata !! key = Some value
               ∧ json_dumps E value = Raised e.
Proof.
  intros (key & value & Hlook & H)%sanitize_raises.
  apply sanitize_field_raises in H as (Hin & Hj & _). eauto.
Qed.

End sanitize_rule.

Lemma sanitize_metadata_rule_witness :
  let E := demo.providers [] demo.reply_ok in
  let metadata : gmap string pyval :=
    <["metadata_json" := VList [VInt 1; VInt 2]]>
      (<["coordinates" := VStr "x"]> {[ "page" := VInt 3 ]}) in
  ∃ sanitized,
    vector._sanitize_metadata E metadata = Returned sanitized
    ∧ sanitized !! "metadata_json" = Some (VStr "[1, 2]")
    ∧ sanitized !! "coordinates" = None
    ∧ (∀ key v, sanitized !! key = Some v → index_value v).
Proof.
  intros E metadata.
  exists (<["metadata_json" := VStr "[1, 2]"]> {[ "page" := VInt 3 ]}).
  assert (vector._sanitize_metadata E metadata
          = Returned (<["metadata_json" := VStr "[1, 2]"]>
                        {[ "page" := VInt 3 ]})) as Hrun
    by (vm_compute; reflexivity).
  split_and!; [exact Hrun|reflexivity|reflexivity|].
  exact (proj1 (sanitize_metadata_rule E metadata _ Hrun)).
Defined.

(** A field of another type, here a timestamp object, is kept as the text
    [str()] gives although its key is not on the allowlist: the rule as the
    specification words it fails. *)
Lemma sanitize_rule_counterexample :
  let E := demo.providers [] demo.reply_ok in
  let stamp := VOther (PyObject "datetime" true (Returned "2024-01-01 00:00:00")) in
  let metadata : gmap string pyval := {[ "last_modified" := stamp ]} in
  let sanitized : gmap string pyval :=
    {[ "last_modified" := VStr "2024-01-01 00:00:00" ]} in
  vector._sanitize_metadata E metadata = Returned sanitized
  ∧ ¬ claimed_sanitize_rule E metadata sanitized.
Proof.
  intros E stamp metadata sanitized. split; [by vm_compute|].
  intros [_ Hrule].
  destruct (Hrule "last_modified" stamp) as [[Habsent|Hjson] _];
    [reflexivity|by intros []|discriminate Habsent|].
  destruct Hjson as (text & Hdump & _). discriminate Hdump.
Qed.

(** [None] under a key of the allowlist is dropped, not serialized. *)
Lemma sanitize_rule_none_on_allowlist (E : externals) :
  vector._sanitize_metadata E {[ "metadata_json" := VNone ]} = Returned ∅
  ∧ ¬ claimed_sanitize_rule E {[ "metadata_json" := VNone ]} ∅.
Proof.
  split; [by vm_compute|]. intros [_ Hrule].
  destruct (Hrule "metadata_json" VNone) as [_ [_ Hiff]];
    [reflexivity|by intros []|].
  destruct Hiff as (text & _ & Hlook); [by apply elem_of_singleton|].
  discriminate Hlook.
Qed.

(** ** The ingestion pipeline *)

Section ingestion.
Context (E : externals).

(** The caller's fields win over the parser's, and only ["text"] is set
    after them. *)
Lemma process_chunks_keeps h metadata i docs chunks c key v :
  document.process_chunks E h metadata i docs = Returned chunks →
  c ∈ chunks → key ≠ "text" → metadata !! key = Some v →
  chunk_metadata c !! key = Some v.
Proof.
  intros Hrun Hc Hkey Hv. revert i chunks Hrun Hc.
  induction docs as [|doc docs IH]; intros i chunks Hrun Hc; simpl in Hrun.
  - injection Hrun as <-. by apply elem_of_nil in Hc.
  - destruct (document.process_chunk E h metadata i doc) as [c0|] eqn:Hc0;
      simpl in Hrun; [|done].
    destruct (document.process_chunks E h metadata (S i) docs) as [rest|]
      eqn:Hrest; simpl in Hrun; [|done].
    injection Hrun as <-. apply elem_of_cons in Hc as [->|Hc]; [|by eapply IH].
    unfold document.process_chunk in Hc0.
    destruct (document.format_value E _) as [file_id|]; simpl in Hc0; [|done].
    injection Hc0 as <-. simpl.
    rewrite lookup_insert_ne by done. by apply lookup_union_Some_l.
Qed.

(** The [finally] block never raises and leaves the index and the schedule
    alone.  When the file is there it calls [os.remove] once, and the file
    is gone exactly when that call succeeds; when the file is not there it
    does nothing. *)
Lemma cleanup_spec file_path w :
  ∃ w', ingest.cleanup E file_path w = (Returned tt, w')
    ∧ w_index w' = w_index w
    ∧ w_tasks w' = w_tasks w
    ∧ if decide (file_path ∈ w_files w) then
        w_history w' = w_history w ++ [EvRemove file_path]
        ∧ w_files w'
          = match os_remove_fault E (w_history w) file_path with
            | None => w_files w ∖ {[ file_path ]}
            | Some _ => w_files w
            end
      else w' = w.
Proof.
  unfold ingest.cleanup, mbind, M_bind, ingest.os_path_exists, try_except,
    ingest.os_remove, mret, M_ret.
  destruct (decide (file_path ∈ w_files w)) as [Hin|Hout].
  - rewrite bool_decide_eq_true_2 by done.
    destruct (os_remove_fault E (w_history w) file_path) as [e|];
      [by eexists|].
    case_decide; [by eexists|done].
  - rewrite bool_decide_eq_false_2 by done. by eexists.
Qed.

(** The body of the pipeline loads the file, then writes to the index only;
    it removes nothing. *)
Lemma pipeline_body_spec (P : vector_record → Prop) file_path metadata w :
  (∀ chunks c san emb,
     document.process_chunks E (w_history w ++ [EvLoad file_path]) metadata 0
       (match load_and_split E (w_history w) file_path with
        | Returned docs => docs
        | Raised _ => []
        end) = Returned chunks →
     c ∈ chunks →
     vector._sanitize_metadata E (chunk_metadata c) = Returned san →
     P (VectorRecord (chunk_id c) emb san)) →
  writes_only P (record_event (EvLoad file_path) w)
    (ingest.pipeline_body E file_path metadata w).2.
Proof.
  intros HP.
  unfold ingest.pipeline_body, try_except, document.process_file, mbind,
    M_bind, document.load_documents, with_history, raise.
  destruct (load_and_split E (w_history w) file_path) as [docs|e]; simpl;
    [|apply writes_only_refl].
  destruct (document.process_chunks E _ metadata 0 docs) as [chunks|e]
    eqn:Hchunks; simpl; [|apply writes_only_refl].
  destruct chunks as [|c0 chunks]; [apply writes_only_refl|].
  pose proof (upsert_chunks_writes E P (c0 :: chunks)
                (record_event (EvLoad file_path) w)) as Hw.
  destruct (vector.upsert_chunks E (c0 :: chunks) _) as [[[]|e] w1];
    simpl in *; apply Hw; intros; by eapply HP.
Qed.

End ingestion.

Section ingestion_claims.
Context (E : externals).

Lemma run_ingestion_pipeline_unfold file_path metadata w :
  ∃ w',
    ingest.cleanup E file_path
      (ingest.pipeline_body E file_path metadata w).2 = (Returned tt, w')
    ∧ ingest.run_ingestion_pipeline E file_path metadata w
      = ((ingest.pipeline_body E file_path metadata w).1, w').
Proof.
  unfold ingest.run_ingestion_pipeline, try_finally.
  destruct (ingest.pipeline_body E file_path metadata w) as [rb wb]. simpl.
  destruct (cleanup_spec E file_path wb) as (w' & Hc & _).
  exists w'. by rewrite Hc.
Qed.

Lemma removals_app file_path h1 h2 :
  removals file_path (h1 ++ h2)
  = removals file_path h1 + removals file_path h2.
Proof. unfold removals. by rewrite List.filter_app, length_app. Qed.

Lemma removals_index_calls file_path h :
  Forall index_call h → removals file_path h = 0.
Proof.
  unfold removals. induction 1 as [|ev h Hev _ IH]; [done|].
  by destruct ev.
Qed.

(** C8, as the code has it.  Whatever the body of the pipeline did (it
    returned after ingesting, it returned early on an empty chunk list, or
    it raised), the pipeline ends with the same outcome, so an exception is
    still raised to the caller, and the cleanup block ran once in between:
    the body itself removes nothing; if the file was there the run makes
    exactly one [os.remove] call, after which the file is gone when that
    call succeeded and still there when it failed (the failure is
    swallowed); if the file was not there no removal is attempted. *)
Theorem run_ingestion_pipeline_cleanup file_path metadata w :
  let body := ingest.pipeline_body E file_path metadata w in
  let run := ingest.run_ingestion_pipeline E file_path metadata w in
  run.1 = body.1
  ∧ body.1
    = match document.process_file E file_path metadata w with
      | (Raised e, _) => Raised e
      | (Returned [], _) => Returned tt
      | (Returned chunks, w1) => (vector.upsert_chunks E chunks w1).1
      end
  ∧ w_index run.2 = w_index body.2
  ∧ w_files body.2 = w_files w
  ∧ (∃ calls, w_history run.2 = w_history w ++ calls
              ∧ removals file_path calls
                = if decide (file_path ∈ w_files w) then 1 else 0)
  ∧ (file_path ∈ w_files run.2
     ↔ file_path ∈ w_files w
       ∧ is_Some (os_remove_fault E (w_history body.2) file_path)).
Proof.
  intros body run.
  destruct (run_ingestion_pipeline_unfold file_path metadata w)
    as (w' & Hclean & Hrun).
  fold body in Hclean, Hrun. fold run in Hrun.
  pose proof (pipeline_body_spec E (λ _, True) file_path metadata w
                ltac:(done)) as (_ & Hfiles & _ & calls & Hhist & Hcalls & _).
  fold body in Hfiles, Hhist. simpl in Hfiles, Hhist.
  destruct (cleanup_spec E file_path body.2) as (w'' & Hclean' & Hidx & _ & Hrm).
  rewrite Hclean in Hclean'. injection Hclean' as <-.
  rewrite Hrun. simpl. split_and!; [done| |done|done| |].
  - subst body. unfold ingest.pipeline_body, try_except, mbind, M_bind, raise.
    destruct (document.process_file E file_path metadata w) as [[chunks|e] w1];
      [|done].
    destruct chunks as [|c chunks]; [done|].
    by destruct (vector.upsert_chunks E (c :: chunks) w1) as [[[]|e] w2].
  - rewrite Hfiles in Hrm.
    destruct (decide (file_path ∈ w_files w)) as [Hin|Hout].
    + destruct Hrm as [Hh _]. exists ([EvLoad file_path] ++ calls ++ [EvRemove file_path]).
      split; [rewrite Hh, Hhist; by rewrite <- !app_assoc|].
      rewrite !removals_app, (removals_index_calls _ calls Hcalls).
      unfold removals; simpl. by rewrite bool_decide_eq_true_2.
    + subst w'. exists ([EvLoad file_path] ++ calls).
      split; [rewrite Hhist; by rewrite <- app_assoc|].
      rewrite removals_app, (removals_index_calls _ calls Hcalls). done.
  - rewrite Hfiles in Hrm.
    destruct (decide (file_path ∈ w_files w)) as [Hin|Hout].
    + destruct Hrm as [_ ->].
      destruct (os_remove_fault E (w_history body.2) file_path) as [e|].
      * split; [eauto|tauto].
      * split; [|by intros [_ [? ?]]].
        intros [_ Hn]%elem_of_difference. destruct Hn.
        by apply elem_of_singleton.
    + subst w'. rewrite Hfiles. tauto.
Qed.

(** Every record written by a run of the pipeline carries the tenant named
    by the metadata. *)
Lemma run_ingestion_pipeline_tags file_path metadata uid w :
  metadata !! "user_id" = Some (VStr uid) →
  let w' := (ingest.run_ingestion_pipeline E file_path metadata w).2 in
  (∀ id r, w_index w' !! id = Some r →
           w_index w !! id = Some r ∨ tagged uid r)
  ∧ (∀ recs r, EvUpsert recs ∈ drop (length (w_history w)) (w_history w') →
               r ∈ recs → tagged uid r)
  ∧ (uid ≠ "" →
     map_Forall (λ _, tagged_nonempty) (w_index w) →
     map_Forall (λ _, tagged_nonempty) (w_index w')).
Proof.
  intros Huid w'.
  destruct (run_ingestion_pipeline_unfold file_path metadata w)
    as (w1 & Hclean & Hrun).
  assert (w' = w1) as -> by (subst w'; by rewrite Hrun).
  pose proof (pipeline_body_spec E (tagged uid) file_path metadata w)
    as (Hidx & _ & _ & calls & Hhist & _ & Hups).
  { intros chunks c san emb Hchunks Hc Hsan. unfold tagged; simpl.
    eapply (sanitize_keeps_string E); [|done|].
    - apply (bool_decide_eq_false_1 ("user_id" ∈ vector.exclude_fields)).
      by vm_compute.
    - by eapply process_chunks_keeps. }
  simpl in Hidx, Hhist.
  destruct (cleanup_spec E file_path
              (ingest.pipeline_body E file_path metadata w).2)
    as (w2 & Hclean' & Hsame & _ & Hrm).
  rewrite Hclean in Hclean'. injection Hclean' as <-.
  assert (∀ id r, w_index w1 !! id = Some r →
                  w_index w !! id = Some r ∨ tagged uid r) as Hindex.
  { intros id r. rewrite Hsame. apply Hidx. }
  split_and!; [done| |].
  - intros recs r Hin Hr.
    assert (∃ tail, w_history w1
                    = w_history w ++ EvLoad file_path :: calls ++ tail
                    ∧ EvUpsert recs ∉ tail) as (tail & Hw1 & Htail).
    { destruct (decide (file_path ∈ w_files _)).
      - destruct Hrm as [-> _]. exists [EvRemove file_path].
        rewrite Hhist, <- !app_assoc. split; [done|].
        by intros [=]%list_elem_of_singleton.
      - subst w1. exists []. rewrite Hhist, app_nil_r, <- app_assoc.
        split; [done|]. apply not_elem_of_nil. }
    rewrite Hw1, drop_app_length in Hin.
    apply elem_of_cons in Hin as [[=]|Hin].
    apply elem_of_app in Hin as [Hin|Hin]; [|done].
    specialize (Hups _ Hin). by eapply Forall_forall in Hups.
  - intros Hne Hinv id r Hr. destruct (Hindex id r Hr) as [Hold|Hnew].
    + by apply (Hinv id r).
    + by exists uid.
Qed.

(** C2, as the code has it.  When the metadata handed to the pipeline names
    the tenant [uid] under ["user_id"], every record the run leaves in the
    index is one that was there before or carries ["user_id"] equal to
    [uid], and so does every record of every upsert call of the run; the
    tag is therefore non-empty whenever [uid] is, and then an index whose
    records all carry a non-empty tenant stays so. *)
Theorem ingestion_tags_tenant file_path metadata uid w :
  metadata !! "user_id" = Some (VStr uid) →
  let w' := (ingest.run_ingestion_pipeline E file_path metadata w).2 in
  (∀ id r, w_index w' !! id = Some r →
           w_index w !! id = Some r ∨ tagged uid r)
  ∧ (∀ recs r, EvUpsert recs ∈ drop (length (w_history w)) (w_history w') →
               r ∈ recs → tagged uid r)
  ∧ (uid ≠ "" →
     map_Forall (λ _, tagged_nonempty) (w_index w) →
     map_Forall (λ _, tagged_nonempty) (w_index w')).
Proof. exact (run_ingestion_pipeline_tags file_path metadata uid w). Qed.

End ingestion_claims.

(** A run on 250 chunks: three batches. *)
Lemma upsert_chunks_batching_witness :
  let E := demo.providers [] demo.reply_ok in
  let chunks := demo.numbered_chunks 250 in
  ∃ w' (runs : list (list chunk * list vector_record)),
    vector.upsert_chunks E chunks demo.empty_world = (Returned tt, w')
    ∧ concat runs.*1 = chunks
    ∧ length runs = ceil_div (length chunks) 100
    ∧ Forall (λ run, 0 < length run.1 ≤ 100
                     ∧ length run.2 ≤ length run.1) runs
    ∧ w_history w'
      = w_history demo.empty_world ++ concat (batch_events <$> runs).
Proof.
  intros E chunks.
  apply (upsert_chunks_batching E chunks demo.empty_world).
  - intros h texts. exact I.
  - intros c Hc. apply list_elem_of_fmap in Hc as (i & -> & _). exact I.
  - intros h recs. reflexivity.
Defined.

(** A run on 101 chunks in which the upsert of the second batch fails: the
    first batch stays in the index. *)
Lemma upsert_chunks_partial_success_witness :
  let E := demo.with_upsert_fault demo.fourth_call_fails
             (demo.providers [] demo.reply_ok) in
  let chunks := demo.repeated_chunks 101 in
  let e := Exn (OtherException "PineconeApiException") "(503)" in
  ∃ w' (runs : list (list chunk * list vector_record)) attempt,
    vector.upsert_chunks E chunks demo.empty_world = (Raised e, w')
    ∧ runs.*1 = take 1 (batches chunks)
    ∧ w_index w'
      = foldl vector.store_records (w_index demo.empty_world) runs.*2
    ∧ w_history w'
      = w_history demo.empty_world ++ concat (batch_events <$> runs)
          ++ EvEncode (chunk_text <$> take 100 (drop 100 chunks)) :: attempt
    ∧ w_index w' !! "c" = Some (VectorRecord "c" [1%Z] ∅).
Proof.
  intros E chunks e.
  destruct (upsert_chunks_partial_success E chunks demo.empty_world 1
              (take 100 (drop 100 chunks))
              (vector.upsert_chunks E (take 100 chunks) demo.empty_world).2 e)
    as (w' & runs & attempt & Hrun & Hruns & Hidx & Hsame & Hhist & _).
  - vm_compute; reflexivity.
  - vm_compute; reflexivity.
  - right. exists [[1%Z]], [VectorRecord "c" [1%Z] ∅].
    split_and!; vm_compute; reflexivity.
  - exists w', runs, attempt.
    split_and!; [exact Hrun|exact Hruns|exact Hidx|exact Hhist|].
    rewrite Hsame. vm_compute; reflexivity.
Defined.

(** The pipeline run for tenant [u1] on a file with one chunk. *)
Lemma ingestion_tags_tenant_witness :
  let E := demo.providers [Document "alpha" []] demo.reply_ok in
  let metadata := ingest.upload_metadata "f1" "a.txt" "u1" ".txt" in
  let w := World ∅ {[ "/tmp/x" ]} [] [] in
  let w' := (ingest.run_ingestion_pipeline E "/tmp/x" metadata w).2 in
  metadata !! "user_id" = Some (VStr "u1")
  ∧ (∃ r, w_index w' !! "f1#chunk0" = Some r)
  ∧ (∀ id r, w_index w' !! id = Some r →
             w_index w !! id = Some r ∨ tagged "u1" r).
Proof.
  intros E metadata w w'. split_and!.
  - reflexivity.
  - eexists. vm_compute. reflexivity.
  - apply (ingestion_tags_tenant E "/tmp/x" metadata "u1" w). reflexivity.
Defined.

(** The same run with the empty string as tenant identifier: the chunk is
    stored with an empty ["user_id"]. *)
Lemma ingestion_empty_tenant_counterexample :
  let E := demo.providers [Document "alpha" []] demo.reply_ok in
  let metadata := ingest.upload_metadata "f1" "a.txt" "" ".txt" in
  let w := World ∅ {[ "/tmp/x" ]} [] [] in
  let run := ingest.run_ingestion_pipeline E "/tmp/x" metadata w in
  run.1 = Returned tt
  ∧ ∃ r, w_index run.2 !! "f1#chunk0" = Some r
         ∧ rec_metadata r !! "user_id" = Some (VStr "")
         ∧ ¬ tagged_nonempty r.
Proof.
  intros E metadata w run. split; [vm_compute; reflexivity|].
  eexists. split; [vm_compute; reflexivity|].
  split; [vm_compute; reflexivity|].
  intros (uid & Htag & Hne). vm_compute in Htag. congruence.
Qed.

(** A run in which [os.remove] is refused: the pipeline returns normally,
    one removal was attempted, and the file is still there. *)
Lemma run_ingestion_pipeline_file_remains :
  let E := demo.with_remove_fault demo.remove_denied
             (demo.providers [Document "alpha" []] demo.reply_ok) in
  let metadata := ingest.upload_metadata "f1" "a.txt" "u1" ".txt" in
  let w := World ∅ {[ "/tmp/x" ]} [] [] in
  let run := ingest.run_ingestion_pipeline E "/tmp/x" metadata w in
  run.1 = Returned tt
  ∧ removals "/tmp/x" (w_history run.2) = 1
  ∧ w_files run.2 = {[ "/tmp/x" ]}.
Proof. intros E metadata w run. split_and!; vm_compute; reflexivity. Qed.

(** ** Occurrences in joined strings *)

Section occurrences.

Lemma chars_app a b : chars (a +:+ b) = chars a ++ chars b.
Proof. unfold chars. induction a as [|c a IH]; [done|]. simpl. by rewrite IH. Qed.

Lemma chars_inj a b : chars a = chars b → a = b.
Proof.
  unfold chars. intros H.
  rewrite <- (string_of_list_ascii_of_string a),
          <- (string_of_list_ascii_of_string b). by rewrite H.
Qed.

Lemma occurs_chars t s :
  occurs t s ↔ ∃ pre post, chars s = pre ++ chars t ++ post.
Proof.
  split.
  - intros (pre & post & ->). exists (chars pre), (chars post).
    by rewrite !chars_app.
  - intros (pre & post & H).
    exists (string_of_list_ascii pre), (string_of_list_ascii post).
    apply chars_inj. rewrite !chars_app. unfold chars at 2 4.
    by rewrite !list_ascii_of_string_of_list_ascii.
Qed.

Lemma occurs_refl s : occurs s s.
Proof. exists "", "". apply chars_inj. by rewrite !chars_app, app_nil_r. Qed.

Lemma occurs_length t s : occurs t s → len t ≤ len s.
Proof.
  intros (pre & post & H)%occurs_chars.
  assert (∀ x, len x = length (chars x)) as Hlen.
  { induction x as [|c x IH]; [done|]. simpl. by rewrite IH. }
  rewrite !Hlen, H, !length_app. lia.
Qed.

(** A list found at the start of [l1 ++ c :: l2] and free of [c] lies in
    [l1]. *)
Lemma prefix_before {A} (c : A) t post l1 l2 :
  t ++ post = l1 ++ c :: l2 → c ∉ t → ∃ post', l1 = t ++ post'.
Proof.
  revert l1. induction t as [|x t IH]; intros l1 H Hc; [by exists l1|].
  destruct l1 as [|y l1]; simplify_eq/=.
  - destruct Hc. left.
  - destruct (IH l1) as [post' ->]; [done| |by exists post'].
    intros Hin. apply Hc. by right.
Qed.

(** An occurrence free of [c] in [l1 ++ c :: l2] lies in [l1] or in [l2]. *)
Lemma occurrence_split {A} (c : A) pre t post l1 l2 :
  pre ++ t ++ post = l1 ++ c :: l2 → c ∉ t →
  (∃ post', l1 = pre ++ t ++ post') ∨ (∃ pre', l2 = pre' ++ t ++ post).
Proof.
  revert l1. induction pre as [|x pre IH]; intros l1 H Hc; simpl in H.
  - left. destruct (prefix_before c t post l1 l2 H Hc) as [post' ->].
    by exists post'.
  - destruct l1 as [|y l1]; simpl in H; injection H as -> H.
    + right. by exists pre.
    + destruct (IH l1 H Hc) as [[post' ->]|[pre' ->]].
      * left. by exists post'.
      * right. by exists pre'.
Qed.

Lemma occurs_around_newline t a b :
  nl_char ∉ chars t →
  occurs t (a +:+ String nl_char b) → occurs t a ∨ occurs t b.
Proof.
  intros Hnl (pre & post & H)%occurs_chars.
  rewrite chars_app in H. change (chars (String nl_char b))
    with (nl_char :: chars b) in H.
  symmetry in H. apply occurrence_split in H as [[post' H]|[pre' H]]; [| |done].
  - left. apply occurs_chars. eauto.
  - right. apply occurs_chars. eauto.
Qed.

Lemma occurs_empty t : occurs t "" → t = "".
Proof. intros H%occurs_length. destruct t; [done|simpl in H; lia]. Qed.

(** A token without line break that is no part of the dashes of the
    separator and occurs in a joined context occurs in one of the parts. *)
Lemma occurs_join token parts :
  nl_char ∉ chars token → ¬ occurs token "---" →
  occurs token (join search.separator parts) →
  Exists (occurs token) parts.
Proof.
  intros Hnl Hdash.
  assert (token ≠ "") as Hne.
  { intros ->. apply Hdash. by exists "", "---". }
  induction parts as [|p parts IH]; intros H; simpl in H.
  - by apply occurs_empty in H.
  - destruct parts as [|q parts]; [by left|].
    change (p +:+ search.separator +:+ join search.separator (q :: parts))
      with (p +:+ String nl_char (String nl_char
              ("---" +:+ String nl_char (String nl_char
                 (join search.separator (q :: parts)))))) in H.
    apply occurs_around_newline in H as [H|H]; [by left| |done].
    apply (occurs_around_newline _ "") in H as [H|H];
      [by apply occurs_empty in H| |done].
    apply occurs_around_newline in H as [H|H]; [done| |done].
    apply (occurs_around_newline _ "") in H as [H|H];
      [by apply occurs_empty in H| |done].
    right. by apply IH.
Qed.

End occurrences.

(** ** C1: tenant isolation of [get_context] *)

Section isolation.
Context (E : externals).

Lemma matches_filter_tagged uid r :
  Is_true (search.matches_filter uid r) ↔ tagged uid r.
Proof.
  unfold search.matches_filter, tagged.
  destruct (rec_metadata r !! "user_id") as [[]|]; try (split; by intros).
  rewrite bool_decide_spec. split; [by intros ->|by intros [=]].
Qed.

(** The index returns only records it holds that pass the filter. *)
Lemma index_query_sound idx query_emb top_k uid matches m :
  search.index_query E idx query_emb top_k uid = Returned matches →
  m ∈ matches → tagged uid m ∧ ∃ id, idx !! id = Some m.
Proof.
  unfold search.index_query.
  destruct (index_query_fault E query_emb); [done|]. intros [= <-] Hm.
  apply subseteq_take in Hm. rewrite merge_sort_Permutation in Hm.
  apply list_elem_of_fmap in Hm as ([id r] & -> & Hm).
  apply elem_of_map_to_list, map_lookup_filter_Some in Hm as [Hlook Hpass].
  split; [by apply matches_filter_tagged|by exists id].
Qed.

(** The index reads nothing outside the tenant's view. *)
Lemma index_query_view idx query_emb top_k uid :
  search.index_query E idx query_emb top_k uid
  = search.index_query E (tenant_view uid idx) query_emb top_k uid.
Proof.
  unfold search.index_query, tenant_view.
  destruct (index_query_fault E query_emb); [done|].
  rewrite (map_filter_id _ (filter _ idx)); [done|].
  intros id r Hr. by apply map_lookup_filter_Some in Hr as [_ Hr].
Qed.

Lemma extract_texts_from matches v :
  v ∈ search.extract_texts matches →
  ∃ m, m ∈ matches ∧ rec_metadata m !! "text" = Some v ∧ truthy v = true.
Proof.
  unfold search.extract_texts.
  intros (m & Hm & Hv)%list_elem_of_omap. exists m. split; [done|].
  destruct (rec_metadata m !! "text") as [t|]; simpl in Hv.
  - destruct (truthy t) eqn:Ht; by simplify_eq.
  - done.
Qed.

Lemma mapM_outcome_cons {A B} (f : A → outcome B) x l :
  mapM f (x :: l)
  = match f x with
    | Returned y =>
        match mapM f l with
        | Returned k => Returned (y :: k)
        | Raised e => Raised e
        end
    | Raised e => Raised e
    end.
Proof. simpl. destruct (f x); [|done]. simpl. by destruct (mapM f l). Qed.

Lemma mapM_pick chunks indices final c :
  mapM (search.pick chunks) indices = Returned final →
  c ∈ final → c ∈ chunks.
Proof.
  revert final. induction indices as [|i indices IH]; intros final H Hc.
  - injection H as <-. by apply elem_of_nil in Hc.
  - rewrite mapM_outcome_cons in H.
    destruct (search.pick chunks i) as [x|] eqn:Hi; [|done].
    destruct (mapM (search.pick chunks) indices) as [rest|] eqn:Hrest;
      [|done].
    injection H as <-. apply elem_of_cons in Hc as [->|Hc]; [|by eapply IH].
    unfold search.pick in Hi.
    destruct (chunks !! i) as [y|] eqn:Hy; [|done]. injection Hi as ->.
    by eapply list_elem_of_lookup_2.
Qed.

Lemma all_strings_spec i parts strs :
  all_strings i parts = Returned strs → parts = VStr <$> strs.
Proof.
  revert i strs. induction parts as [|v parts IH]; intros i strs H;
    simpl in H.
  - by injection H as <-.
  - destruct v; try done.
    destruct (all_strings (S i) parts) as [rest|] eqn:Hrest; simpl in H;
      [|done].
    injection H as <-. simpl. f_equal. by eapply IH.
Qed.

(** The context is the join of texts of records of the querying tenant. *)
Lemma get_context_provenance idx query uid ctx :
  search.get_context E idx query uid = Returned ctx →
  ∃ texts, ctx = join search.separator texts
           ∧ Forall (tenant_text idx uid) texts.
Proof.
  unfold search.get_context, try_catch.
  destruct (query_encode E query) as [query_emb|]; simpl; [|done].
  destruct (search.index_query E idx query_emb _ uid) as [matches|]
    eqn:Hquery; simpl; [|done].
  destruct matches as [|m0 matches]; [intros [= <-]; by exists []|].
  destruct (search.extract_texts (m0 :: matches)) as [|c0 chunks] eqn:Hex;
    [intros [= <-]; by exists []|].
  destruct (cohere_rerank E query (c0 :: chunks) _ _) as [reranked|]; simpl;
    [|done].
  destruct (mapM (search.pick (c0 :: chunks)) reranked) as [final|] eqn:Hpick;
    simpl; [|done].
  unfold join_values.
  destruct (all_strings 0 final) as [texts|] eqn:Hall; simpl; [|done].
  intros [= <-]. exists texts. split; [done|].
  apply all_strings_spec in Hall as ->.
  apply Forall_forall. intros t Ht.
  assert (VStr t ∈ c0 :: chunks) as Hin.
  { eapply mapM_pick; [done|]. apply list_elem_of_fmap. eauto. }
  rewrite <- Hex in Hin.
  apply extract_texts_from in Hin as (m & Hm & Htext & _).
  destruct (index_query_sound _ _ _ _ _ _ Hquery Hm) as [Htag [id Hid]].
  by exists id, m.
Qed.

(** Two runs: indexes that agree on the tenant's view give the same context
    (or the same exception), whatever else they hold. *)
Lemma get_context_two_runs idx1 idx2 query uid :
  tenant_view uid idx1 = tenant_view uid idx2 →
  search.get_context E idx1 query uid = search.get_context E idx2 query uid.
Proof.
  intros Hview. unfold search.get_context.
  destruct (query_encode E query) as [query_emb|]; simpl; [|done].
  by rewrite (index_query_view idx1), (index_query_view idx2), Hview.
Qed.

(** C1, as the code has it.  For every index, distinct tenants [A] and [B]
    and every query, a context returned to [B] is the separator-join of
    texts held by records whose ["user_id"] is [B], and it is the same for
    every index with the same records of [B].  Hence a token that is found
    only in chunks of [A] occurs in none of the joined texts, and does not
    occur in the context itself provided it contains no line break and is
    no part of the dashes of the separator. *)
Theorem get_context_tenant_isolation idx query A B ctx :
  A ≠ B →
  search.get_context E idx query B = Returned ctx →
  (∃ texts, ctx = join search.separator texts
            ∧ Forall (tenant_text idx B) texts)
  ∧ (∀ idx', tenant_view B idx' = tenant_view B idx →
             search.get_context E idx' query B = Returned ctx)
  ∧ (∀ token,
       (∀ id r t, idx !! id = Some r →
                  rec_metadata r !! "text" = Some (VStr t) →
                  occurs token t → tagged A r) →
       (∀ t, tenant_text idx B t → ¬ occurs token t)
       ∧ (nl_char ∉ chars token → ¬ occurs token "---" →
          ¬ occurs token ctx)).
Proof.
  intros HAB Hctx.
  destruct (get_context_provenance _ _ _ _ Hctx) as (texts & -> & Htexts).
  split_and!.
  - by exists texts.
  - intros idx' Hview. by rewrite (get_context_two_runs idx' idx).
  - intros token Honly.
    assert (∀ t, tenant_text idx B t → ¬ occurs token t) as Hnone.
    { intros t (id & r & Hid & HtagB & Htext) Hocc.
      pose proof (Honly id r t Hid Htext Hocc) as HtagA.
      unfold tagged in *. congruence. }
    split; [done|]. intros Hnl Hdash Hocc.
    apply occurs_join in Hocc; [|done..].
    apply Exists_exists in Hocc as (t & Ht & Hocc).
    eapply Forall_forall in Htexts; [|done]. by eapply Hnone.
Qed.

End isolation.

(** The isolation test of the repository: the secret of tenant
    [user_alpha_99] does not reach the context of [user_beta_01]. *)
Lemma get_context_tenant_isolation_witness :
  let E := demo.providers [] demo.reply_ok in
  let query := "What is the secret password?" in
  search.get_context E demo.secret_index query "user_beta_01"
    = Returned "Q3 revenue"
  ∧ (∀ idx',
       tenant_view "user_beta_01" idx'
         = tenant_view "user_beta_01" demo.secret_index →
       search.get_context E idx' query "user_beta_01" = Returned "Q3 revenue")
  ∧ ¬ occurs "ORANGE-SUNSET" "Q3 revenue".
Proof.
  intros E query.
  assert (search.get_context E demo.secret_index query "user_beta_01"
          = Returned "Q3 revenue") as Hctx by (vm_compute; reflexivity).
  destruct (get_context_tenant_isolation E demo.secret_index query
              "user_alpha_99" "user_beta_01" "Q3 revenue")
    as (_ & Hruns & Htoken); [discriminate|exact Hctx|].
  split_and!; [exact Hctx|exact Hruns|].
  destruct (Htoken "ORANGE-SUNSET") as [_ Hnot].
  - intros id r t Hid Htext Hocc. unfold demo.secret_index in Hid.
    apply lookup_insert_Some in Hid as [[_ <-]|[_ Hid]]; [reflexivity|].
    apply lookup_singleton_Some in Hid as [_ <-].
    vm_compute in Htext. injection Htext as <-.
    apply occurs_length in Hocc. vm_compute in Hocc. lia.
  - apply Hnot.
    + apply (bool_decide_eq_false_1 (nl_char ∈ chars "ORANGE-SUNSET")).
      vm_compute. reflexivity.
    + intros Hocc%occurs_length. vm_compute in Hocc. lia.
Defined.

(** Three dashes held only by tenant [tenant_a] occur in the context of
    tenant [tenant_b], between its two chunks. *)
Lemma separator_token_counterexample :
  let E := demo.providers [] demo.reply_ok in
  let ctx := "x" +:+ search.separator +:+ "y" in
  search.get_context E demo.dashes_index "q" "tenant_b" = Returned ctx
  ∧ (∃ r, demo.dashes_index !! "a1" = Some r ∧ tagged "tenant_a" r
          ∧ rec_metadata r !! "text" = Some (VStr "---"))
  ∧ (∀ id r t, demo.dashes_index !! id = Some r →
               rec_metadata r !! "text" = Some (VStr t) →
               occurs "---" t → tagged "tenant_a" r)
  ∧ occurs "---" ctx.
Proof.
  intros E ctx. split_and!.
  - vm_compute. reflexivity.
  - eexists. split_and!; vm_compute; reflexivity.
  - intros id r t Hid Htext Hocc. unfold demo.dashes_index in Hid.
    apply lookup_insert_Some in Hid as [[_ <-]|[_ Hid]]; [reflexivity|].
    apply lookup_insert_Some in Hid as [[_ <-]|[_ Hid]].
    + vm_compute in Htext. injection Htext as <-.
      apply occurs_length in Hocc. vm_compute in Hocc. lia.
    + apply lookup_singleton_Some in Hid as [_ <-].
      vm_compute in Htext. injection Htext as <-.
      apply occurs_length in Hocc. vm_compute in Hocc. lia.
  - exists ("x" +:+ nl +:+ nl), (nl +:+ nl +:+ "y"). vm_compute. reflexivity.
Qed.

(** ** C3: the generator never raises *)

Section generator.
Context (E : externals).

Lemma str_take_length n s : len (str_take n s) ≤ n.
Proof.
  revert s. induction n as [|n IH]; intros [|c s]; unfold len; simpl;
    try lia.
  specialize (IH s). unfold len in IH. lia.
Qed.

Lemma handle_plain_returns e :
  llm.handle_plain e
  = Returned (match exn_class e with
              | KeyError | AttributeError | TypeError => llm.try_again
              | _ => llm.unexpected (exn_text e)
              end).
Proof. unfold llm.handle_plain. by destruct (exn_class e). Qed.

Lemma generate_answer_returns query context :
  ∃ answer, llm.generate_answer E query context = Returned answer.
Proof.
  unfold llm.generate_answer.
  destruct (messages_create E _) as [r|[status api_text|e]].
  - destruct (llm.first_text r) as [answer|e]; [by eexists|].
    rewrite handle_plain_returns. by eexists.
  - case_bool_decide; by eexists.
  - rewrite handle_plain_returns. by eexists.
Qed.

(** C3.  [generate_answer] returns a string on every path.  When the
    provider raises an API error, only the status code read from it decides
    the answer: 404 gives the model-not-found message, anything else the
    try-again message, whatever stringifying the error would do.  A
    [KeyError], [AttributeError] or [TypeError], raised by the provider or
    while reading [response.content[0].text], gives the try-again message;
    any other exception gives the generic message followed by at most the
    first 100 characters of its text. *)
Theorem generate_answer_never_raises query context :
  (∃ answer, llm.generate_answer E query context = Returned answer)
  ∧ (∀ status api_text,
       messages_create E (llm.request E query context)
         = LLMRaised (APIError status api_text) →
       (status = AttrInt 404 →
        llm.generate_answer E query context
          = Returned (llm.model_not_found (settings E)))
       ∧ (status ≠ AttrInt 404 →
          llm.generate_answer E query context = Returned llm.try_again))
  ∧ (∀ e,
       messages_create E (llm.request E query context)
         = LLMRaised (PlainError e)
       ∨ (∃ r, messages_create E (llm.request E query context) = LLMReturned r
               ∧ llm.first_text r = Raised e) →
       (exn_class e ∈ [KeyError; AttributeError; TypeError] →
        llm.generate_answer E query context = Returned llm.try_again)
       ∧ (exn_class e ∉ [KeyError; AttributeError; TypeError] →
          llm.generate_answer E query context
            = Returned ("SERVICE_ERROR: Unable to generate a response. Error: "
                          +:+ str_take 100 (exn_text e))
          ∧ len (str_take 100 (exn_text e)) ≤ 100)).
Proof.
  split_and!.
  - apply generate_answer_returns.
  - intros status api_text Hraise. unfold llm.generate_answer.
    rewrite Hraise. split.
    + intros ->. done.
    + intros Hne. rewrite bool_decide_eq_false_2; [done|].
      destruct status as [z| | |]; simpl; try done.
      intros [= ->]. by apply Hne.
  - intros e He.
    assert (llm.generate_answer E query context = llm.handle_plain e) as ->.
    { unfold llm.generate_answer.
      destruct He as [->|(r & -> & ->)]; done. }
    rewrite handle_plain_returns. split.
    + intros Hin. repeat (apply elem_of_cons in Hin as [->|Hin]; [done|]).
      by apply elem_of_nil in Hin.
    + intros Hout. split; [|apply str_take_length].
      destruct (exn_class e); try done; destruct Hout;
        repeat first [left; done | right]; left.
Qed.

End generator.

(** The two simulated failures of the specification: an API error that
    shows nothing but a 404 status, whose stringification would raise, and
    a response without the expected field. *)
Lemma generate_answer_simulated_errors :
  llm.generate_answer
    (demo.providers [] (LLMRaised (APIError (AttrInt 404) None))) "q" "ctx"
  = Returned "SERVICE_ERROR: Model 'claude-haiku-4-5' not found. Please check your model configuration."
  ∧ llm.generate_answer
      (demo.providers [] (LLMReturned (NoContent "Message"))) "q" "ctx"
    = Returned llm.try_again
  ∧ llm.generate_answer
      (demo.providers [] (LLMReturned (Message (Some [])))) "q" "ctx"
    = Returned "SERVICE_ERROR: Unable to generate a response. Error: list index out of range".
Proof. split_and!; vm_compute; reflexivity. Qed.

(** ** C4: the query endpoint never raises *)

Section endpoint.
Context (E : externals).

Lemma lstrip_length s : len (lstrip s) ≤ len s.
Proof.
  unfold len. induction s as [|c s IH]; simpl; [done|].
  destruct (is_space c); simpl; lia.
Qed.

Lemma rev_app_length s1 s2 : len (String.rev_app s1 s2) = len s1 + len s2.
Proof.
  unfold len. revert s2. induction s1 as [|c s1 IH]; intros s2; simpl; [done|].
  rewrite IH. simpl. lia.
Qed.

Lemma strip_length s : len (strip s) ≤ len s.
Proof.
  unfold strip, rstrip, String.rev. rewrite rev_app_length.
  pose proof (lstrip_length (String.rev_app (lstrip s) "")) as H1.
  rewrite rev_app_length in H1. pose proof (lstrip_length s) as H2.
  unfold len in *. simpl in *. lia.
Qed.

(** [generate_answer] raises nothing, so only the retrieval can take
    [query_rag] to its [except] clause. *)
Lemma query_rag_cases idx request :
  chat.query_rag E idx request
  = match search.get_context E idx (chat.query request)
            (chat.user_id request) with
    | Raised e => Returned (chat.error_response e)
    | Returned context =>
        if bool_decide (context = "") then
          Returned {| chat.answer := chat.no_documents;
                      chat.status := "success" |}
        else
          match llm.generate_answer E (chat.query request) context with
          | Returned answer =>
              Returned {| chat.answer := answer; chat.status := "success" |}
          | Raised e => Returned (chat.error_response e)
          end
    end.
Proof.
  unfold chat.query_rag, try_catch.
  destruct (search.get_context E idx _ _) as [context|e]; simpl; [|done].
  case_bool_decide; [done|].
  by destruct (llm.generate_answer E _ context).
Qed.

(** C4, as the code has it.  [query_rag] always returns a response.  When
    the retrieval raises [e], the status is ["error"] and the answer follows
    from [raw], the text of [e] cut to 200 characters and then stripped of
    surrounding whitespace: the try-again message when [raw] is empty or is
    shorter than 50 characters and starts and ends with the same quote
    character, the label followed by [raw] otherwise.  When the retrieval
    returns, the status is ["success"]. *)
Theorem query_rag_never_raises idx request :
  ∃ resp,
    chat.query_rag E idx request = Returned resp
    ∧ match search.get_context E idx (chat.query request)
              (chat.user_id request) with
      | Raised e =>
          let raw := strip (str_take 200 (exn_text e)) in
          chat.status resp = "error"
          ∧ len raw ≤ 200
          ∧ (raw = "" → chat.answer resp = chat.please_try_again)
          ∧ (raw ≠ "" → len raw < 50 → chat.quoted raw = true →
             chat.answer resp = chat.please_try_again)
          ∧ (raw ≠ "" → 50 ≤ len raw ∨ chat.quoted raw = false →
             chat.answer resp = chat.error_label +:+ raw)
      | Returned context =>
          chat.status resp = "success"
          ∧ (context = "" → chat.answer resp = chat.no_documents)
          ∧ (context ≠ "" →
             llm.generate_answer E (chat.query request) context
               = Returned (chat.answer resp))
      end.
Proof.
  rewrite query_rag_cases.
  destruct (search.get_context E idx _ _) as [context|e].
  - case_bool_decide as Hempty.
    + eexists. split; [done|]. by split_and!.
    + destruct (generate_answer_returns E (chat.query request) context)
        as [answer Hanswer]. rewrite Hanswer.
      eexists. split; [done|]. by split_and!.
  - eexists. split; [done|]. unfold chat.error_response.
    cbn [chat.status chat.answer].
    set (raw := strip (str_take 200 (exn_text e))). split_and!.
    + done.
    + etrans; [apply strip_length|apply str_take_length].
    + intros ->. done.
    + intros Hne Hlen Hq. rewrite bool_decide_eq_false_2 by done.
      apply Nat.ltb_lt in Hlen. by rewrite Hlen, Hq.
    + intros Hne Hor. rewrite bool_decide_eq_false_2 by done.
      destruct Hor as [Hlen| ->].
      * apply Nat.ltb_ge in Hlen. by rewrite Hlen.
      * by rewrite andb_false_r.
Qed.

End endpoint.

(** An index failure whose text ends with a line break, as the client of
    the index prints it: the endpoint answers with the stripped text, the
    rule applied to the merely truncated text would keep the line break. *)
Lemma query_rag_strip_counterexample :
  let text := "(500)" +:+ nl +:+ "Reason: Internal Server Error" +:+ nl in
  let e := Exn (OtherException "PineconeApiException") text in
  let E := demo.with_query_fault (λ _, Some e)
             (demo.providers [] demo.reply_ok) in
  let request := chat.parse_ChatRequest "q" None in
  search.get_context E ∅ (chat.query request) (chat.user_id request) = Raised e
  ∧ chat.query_rag E ∅ request
    = Returned {| chat.answer :=
                    "Error processing your query: (500)" +:+ nl
                      +:+ "Reason: Internal Server Error";
                  chat.status := "error" |}
  ∧ claimed_error_answer text
    = "Error processing your query: (500)" +:+ nl
        +:+ "Reason: Internal Server Error" +:+ nl
  ∧ chat.answer (chat.error_response e) ≠ claimed_error_answer text.
Proof.
  intros text e E request. split_and!; [vm_compute; reflexivity..|].
  apply (bool_decide_eq_false_1
           (chat.answer (chat.error_response e) = claimed_error_answer text)).
  vm_compute. reflexivity.
Qed.

(** A text of blanks only: the endpoint gives the try-again message, the
    rule on the truncated text would give the label and the blanks. *)
Lemma query_rag_blank_text :
  chat.error_response (Exn ValueError "   ")
  = {| chat.answer := chat.please_try_again; chat.status := "error" |}
  ∧ claimed_error_answer "   " = "Error processing your query:    ".
Proof. split; vm_compute; reflexivity. Qed.

(** ** C9: the embedding model instances *)

Section model_instances.
Context (S : Settings).

(** [get_embedding_model] itself is a lazy singleton: it loads on the first
    call only and hands out the same instance afterwards. *)
Lemma get_embedding_model_memoized p :
  let first := embeddings.get_embedding_model S p in
  let second := embeddings.get_embedding_model S first.2 in
  second = (first.1, first.2)
  ∧ length (embeddings.loaded first.2)
    = length (embeddings.loaded p)
      + (if embeddings._model p is None then 1 else 0).
Proof.
  unfold embeddings.get_embedding_model, embeddings.SentenceTransformer.
  destruct p as [[m|] models]; simpl; [split; [done|lia]|].
  split; [done|]. rewrite length_app. simpl. lia.
Qed.

(** C9 on the code.  Importing the application constructs both services,
    and each constructor calls [SentenceTransformer] itself: on a fresh
    process the model is loaded twice, before any embedding is asked for,
    the two services hold different instances, and the shared [_model] of
    [get_embedding_model] is still unset. *)
Theorem services_load_their_own_model :
  let started := embeddings.import_app_main S embeddings.fresh in
  embeddings.loaded started.2
    = [EMBEDDING_MODEL_NAME S; EMBEDDING_MODEL_NAME S]
  ∧ embeddings.search_service_embedding_model started.1
    ≠ embeddings.vector_service_model started.1
  ∧ embeddings._model started.2 = None.
Proof. by split_and!. Qed.

End model_instances.

(** ** C10: the default tenant *)

Section default_tenant.

(** The upload endpoint schedules the ingestion with the tenant of the form,
    ["default_user"] when the form names none. *)
Lemma upload_document_schedules E form w resp w' :
  ingest.upload_document E form w = (ingest.HttpOk resp, w') →
  ∃ file_path metadata,
    w_tasks w' = w_tasks w ++ [(file_path, metadata)]
    ∧ metadata !! "user_id"
      = Some (VStr (ingest.form_default (ingest.form_user_id form))).
Proof.
  unfold ingest.upload_document.
  destruct (ingest.too_large E _); [done|].
  destruct (ingest.filename form) as [[|c name]|]; [done| |done].
  case_decide; [|done].
  unfold ingest.save_upload.
  destruct (save_fault E _ _); [done|]. intros [= _ <-].
  eexists _, _. split; [done|]. done.
Qed.

(** C10.  A request that names no [user_id] is given ["default_user"] by the
    upload endpoint and by the query endpoint alike.  So the ingestion an
    upload without [user_id] schedules tags its records ["default_user"],
    and every record such an ingestion writes passes the filter of every
    query without [user_id]: in the run shown last, one caller uploads a
    file without [user_id], the scheduled ingestion runs, and the context
    retrieved for another caller's query without [user_id] is the text of
    that file. *)
Theorem default_user_is_shared :
  ingest.form_default None = "default_user"
  ∧ (∀ q, chat.user_id (chat.parse_ChatRequest q None) = "default_user")
  ∧ (∀ E form w resp w',
       ingest.form_user_id form = None →
       ingest.upload_document E form w = (ingest.HttpOk resp, w') →
       ∃ file_path metadata,
         w_tasks w' = w_tasks w ++ [(file_path, metadata)]
         ∧ metadata !! "user_id" = Some (VStr "default_user"))
  ∧ (∀ E file_path metadata w q id r,
       metadata !! "user_id" = Some (VStr (ingest.form_default None)) →
       w_index (ingest.run_ingestion_pipeline E file_path metadata w).2 !! id
         = Some r →
       w_index w !! id = None →
       search.matches_filter (chat.user_id (chat.parse_ChatRequest q None)) r
         = true)
  ∧ (let E := demo.providers [Document "alpha" []] demo.reply_ok in
     let form := {| ingest.content_length := None;
                    ingest.filename := Some "report.txt";
                    ingest.form_user_id := None |} in
     let uploaded := (ingest.upload_document E form demo.empty_world).2 in
     let ingested := (ingest.run_next_task E uploaded).2 in
     let request := chat.parse_ChatRequest "what is in the report?" None in
     search.get_context E (w_index ingested) (chat.query request)
       (chat.user_id request) = Returned "alpha").
Proof.
  split_and!.
  - done.
  - done.
  - intros E form w resp w' Hnone Hup.
    destruct (upload_document_schedules E form w resp w' Hup)
      as (file_path & metadata & Htasks & Huid).
    rewrite Hnone in Huid. by exists file_path, metadata.
  - intros E file_path metadata w q id r Huid Hr Hfresh.
    destruct (run_ingestion_pipeline_tags E file_path metadata _ w Huid)
      as (Hidx & _).
    destruct (Hidx id r Hr) as [Hold|Htag]; [congruence|].
    apply Is_true_true. by apply matches_filter_tagged.
  - vm_compute. reflexivity.
Qed.

End default_tenant.

(** * Further properties of the code *)

(** ** [_sanitize_metadata] *)

Section sanitize_more.
Context (E : externals).

Lemma sanitize_field_index_value key value :
  key ∉ vector.exclude_fields → index_value value →
  vector.sanitize_field E key value = Returned (Some value).
Proof.
  intros Hkey Hval. unfold vector.sanitize_field.
  destruct (decide (key ∈ vector.exclude_fields)); [done|].
  destruct value as [| | | | |items|items|o]; try done.
  simpl in Hval. by destruct (forallb is_str items).
Qed.

Lemma sanitize_key_facts metadata sanitized key :
  vector._sanitize_metadata E metadata = Returned sanitized →
  is_Some (sanitized !! key) →
  (key ∉ vector.exclude_fields)
  ∧ (∃ value, metadata !! key = Some value ∧ value ≠ VNone).
Proof.
  intros Hsan [v Hv]. pose proof (sanitize_lookup E _ _ Hsan key) as H.
  destruct (metadata !! key) as [value|]; [|congruence].
  destruct H as (field & Hfield & Hres). rewrite Hv in Hres. subst field.
  unfold vector.sanitize_field in Hfield.
  destruct (decide (key ∈ vector.exclude_fields)); [done|].
  split; [done|]. exists value. split; [done|]. by intros ->.
Qed.

(** X1.  The sanitized dictionary invents no field: each of its keys is a
    key of the input, is not on the exclusion list (whatever value it
    held), and held a value other than [None]. *)
Theorem sanitize_output_keys metadata sanitized key :
  vector._sanitize_metadata E metadata = Returned sanitized →
  is_Some (sanitized !! key) →
  (key ∉ vector.exclude_fields)
  ∧ (∃ value, metadata !! key = Some value ∧ value ≠ VNone).
Proof. apply sanitize_key_facts. Qed.

(** X2.  A string, number, boolean or list of strings under a key that is
    not excluded is passed through unchanged. *)
Theorem sanitize_passes_index_values metadata sanitized key value :
  vector._sanitize_metadata E metadata = Returned sanitized →
  key ∉ vector.exclude_fields →
  metadata !! key = Some value → index_value value →
  sanitized !! key = Some value.
Proof.
  intros Hsan Hkey Hlook Hval.
  pose proof (sanitize_lookup E _ _ Hsan key) as H. rewrite Hlook in H.
  destruct H as (field & Hfield & ->).
  rewrite sanitize_field_index_value in Hfield by done. congruence.
Qed.

Lemma sanitize_fixed_point metadata :
  (∀ key value, metadata !! key = Some value →
                vector.sanitize_field E key value = Returned (Some value)) →
  vector._sanitize_metadata E metadata = Returned metadata.
Proof.
  unfold vector._sanitize_metadata.
  apply (map_fold_weak_ind (λ r m,
    (∀ key value, m !! key = Some value →
                  vector.sanitize_field E key value = Returned (Some value)) →
    r = Returned m)); [done|].
  intros i x m r Hi IH Hall. unfold vector.sanitize_step.
  rewrite IH.
  - simpl. rewrite (Hall i x) by apply lookup_insert_eq. done.
  - intros key value Hk. apply Hall. rewrite lookup_insert_ne; [done|].
    intros ->. congruence.
Qed.

(** X3.  Sanitizing is idempotent: what it returns, it returns unchanged
    when applied again. *)
Theorem sanitize_idempotent metadata sanitized :
  vector._sanitize_metadata E metadata = Returned sanitized →
  vector._sanitize_metadata E sanitized = Returned sanitized.
Proof.
  intros Hsan. apply sanitize_fixed_point. intros key value Hlook.
  apply sanitize_field_index_value.
  - by apply (sanitize_key_facts metadata sanitized key Hsan).
  - pose proof (sanitize_lookup E _ _ Hsan key) as H.
    destruct (metadata !! key) as [raw|]; [|congruence].
    destruct H as (field & Hfield & Hres). rewrite Hlook in Hres.
    subst field. by eapply sanitize_field_value.
Qed.

End sanitize_more.

Lemma mixed_metadata_sanitized :
  vector._sanitize_metadata (demo.providers [] demo.reply_ok) mixed_metadata
  = Returned mixed_sanitized.
Proof. vm_compute. reflexivity. Qed.

Lemma sanitize_output_keys_witness :
  ("page" ∉ vector.exclude_fields)
  ∧ (∃ value, mixed_metadata !! "page" = Some value ∧ value ≠ VNone).
Proof.
  apply (sanitize_output_keys (demo.providers [] demo.reply_ok)
           mixed_metadata mixed_sanitized "page").
  - exact mixed_metadata_sanitized.
  - exists (VInt 3). reflexivity.
Defined.

Lemma sanitize_passes_index_values_witness :
  mixed_sanitized !! "languages" = Some (VList [VStr "eng"]).
Proof.
  apply (sanitize_passes_index_values (demo.providers [] demo.reply_ok)
           mixed_metadata mixed_sanitized "languages").
  - exact mixed_metadata_sanitized.
  - apply (bool_decide_eq_false_1 ("languages" ∈ vector.exclude_fields)).
    vm_compute. reflexivity.
  - reflexivity.
  - exact I.
Defined.

Lemma sanitize_idempotent_witness :
  vector._sanitize_metadata (demo.providers [] demo.reply_ok) mixed_sanitized
  = Returned mixed_sanitized.
Proof.
  apply (sanitize_idempotent (demo.providers [] demo.reply_ok) mixed_metadata).
  exact mixed_metadata_sanitized.
Defined.

(** ** [upsert_chunks]: what it stores and what it leaves alone *)

Section upsert_more.
Context (E : externals).

Lemma store_records_keyed idx recs id r :
  vector.store_records idx recs !! id = Some r →
  idx !! id = Some r ∨ (r ∈ recs ∧ rec_id r = id).
Proof.
  unfold vector.store_records. revert idx.
  induction recs as [|x recs IH]; intros idx H; simpl in H; [by left|].
  apply IH in H as [H|[H Hid]]; [|right; split; [by right|done]].
  destruct (decide (rec_id x = id)) as [<-|Hne].
  - rewrite lookup_insert_eq in H. injection H as <-. right. split; [left|done].
  - rewrite lookup_insert_ne in H by done. by left.
Qed.

Lemma store_records_other idx recs id :
  id ∉ rec_id <$> recs → vector.store_records idx recs !! id = idx !! id.
Proof.
  unfold vector.store_records. revert idx.
  induction recs as [|x recs IH]; intros idx H; simpl; [done|].
  rewrite fmap_cons in H. apply not_elem_of_cons in H as [Hne H].
  rewrite IH by done. by rewrite lookup_insert_ne.
Qed.

Lemma store_records_keeps idx recs id :
  is_Some (idx !! id) → is_Some (vector.store_records idx recs !! id).
Proof.
  unfold vector.store_records. revert idx.
  induction recs as [|x recs IH]; intros idx H; simpl; [done|].
  apply IH. destruct (decide (rec_id x = id)) as [<-|Hne].
  - rewrite lookup_insert_eq. eauto.
  - by rewrite lookup_insert_ne.
Qed.

Lemma store_records_present idx recs id :
  id ∈ rec_id <$> recs → is_Some (vector.store_records idx recs !! id).
Proof.
  unfold vector.store_records. revert idx.
  induction recs as [|x recs IH]; intros idx H; simpl.
  - by apply elem_of_nil in H.
  - rewrite fmap_cons in H. apply elem_of_cons in H as [->|H]; [|by apply IH].
    apply (store_records_keeps _ recs). rewrite lookup_insert_eq. eauto.
Qed.

Lemma fst_zip_take {A B} (l : list A) (k : list B) :
  (zip l k).*1 = take (length k) l.
Proof.
  revert k. induction l as [|x l IH]; intros [|y k]; simpl; try done.
  by rewrite IH.
Qed.

Lemma snd_zip_take {A B} (l : list A) (k : list B) :
  (zip l k).*2 = take (length l) k.
Proof.
  revert k. induction l as [|x l IH]; intros [|y k]; simpl; try done.
  by rewrite IH.
Qed.

Lemma prepare_records_fields pairs recs :
  vector.prepare_records E pairs = Returned recs →
  rec_id <$> recs = chunk_id <$> pairs.*1 ∧ rec_values <$> recs = pairs.*2.
Proof.
  intros H. apply prepare_records_spec in H.
  induction H as [|[c emb] r pairs recs (Hid & Hval & _) _ [IH1 IH2]];
    [done|]. rewrite !fmap_cons. simpl in *. by rewrite Hid, Hval, IH1, IH2.
Qed.

Lemma prepare_records_ids (b : list chunk) (vs : list vector) recs :
  vector.prepare_records E (zip b vs) = Returned recs →
  rec_id <$> recs = chunk_id <$> take (length vs) b
  ∧ rec_values <$> recs = take (length b) vs.
Proof.
  intros H. rewrite <- fst_zip_take, <- snd_zip_take.
  by apply prepare_records_fields.
Qed.

(** X4.  A batch that completes made one embedding call and one upsert call;
    the records upserted are those of the chunks paired by [zip] with an
    embedding, in order: when the model returns fewer embeddings than texts
    the chunks left over are dropped without an error. *)
Theorem upsert_batch_pairs b w w' :
  vector.upsert_batch E b w = (Returned tt, w') →
  ∃ vs recs,
    model_encode E (w_history w) (chunk_text <$> b) = Returned vs
    ∧ w_history w'
      = w_history w ++ [EvEncode (chunk_text <$> b); EvUpsert recs]
    ∧ rec_id <$> recs = chunk_id <$> take (length vs) b
    ∧ rec_values <$> recs = take (length b) vs
    ∧ w_index w' = vector.store_records (w_index w) recs.
Proof.
  intros Hrun. pose proof (upsert_batch_run E b w) as H.
  rewrite Hrun in H. simpl in H.
  inversion H as [| | |vs recs Henc Hprep Hfault]; subst.
  exists vs, recs. destruct (prepare_records_ids _ _ _ Hprep).
  by split_and!.
Qed.

Lemma batch_run_frame b w r w' :
  batch_run E b w r w' →
  (∀ id, id ∉ chunk_id <$> b → w_index w' !! id = w_index w !! id)
  ∧ (∀ id, is_Some (w_index w !! id) → is_Some (w_index w' !! id))
  ∧ (keyed (w_index w) → keyed (w_index w')).
Proof.
  intros [e He|vs e He Hp|vs recs e He Hp Hf|vs recs He Hp Hf]; simpl;
    try by split_and!.
  destruct (prepare_records_ids _ _ _ Hp) as [Hids _]. split_and!.
  - intros id Hid. apply store_records_other. rewrite Hids.
    intros Hin. apply Hid. apply list_elem_of_fmap in Hin as (c & -> & Hc).
    apply list_elem_of_fmap. exists c. split; [done|].
    by eapply subseteq_take.
  - intros id. apply store_records_keeps.
  - intros Hkeyed id r' Hr'.
    apply store_records_keyed in Hr' as [Hold|[_ Hid]]; [by apply Hkeyed|done].
Qed.

Lemma for_each_batches_frame bs w :
  let w' := (for_each bs (vector.upsert_batch E) w).2 in
  (∀ id, id ∉ chunk_id <$> concat bs → w_index w' !! id = w_index w !! id)
  ∧ (∀ id, is_Some (w_index w !! id) → is_Some (w_index w' !! id))
  ∧ (keyed (w_index w) → keyed (w_index w')).
Proof.
  revert w. induction bs as [|b bs IH]; intros w; [by split_and!|].
  cbv zeta. rewrite for_each_cons.
  pose proof (upsert_batch_run E b w) as Hrun.
  destruct (vector.upsert_batch E b w) as [[[]|e] w1]; simpl in Hrun;
    apply batch_run_frame in Hrun as (Hf1 & Hs1 & Hk1).
  - destruct (IH w1) as (Hf & Hs & Hk). cbv zeta in *.
    change (concat (b :: bs)) with (b ++ concat bs). split_and!.
    + intros id Hid. rewrite fmap_app in Hid.
      apply not_elem_of_app in Hid as [Hb Hbs]. by rewrite Hf, Hf1.
    + intros id Hid. by apply Hs, Hs1.
    + intros Hkeyed. by apply Hk, Hk1.
  - change (concat (b :: bs)) with (b ++ concat bs). simpl.
    split_and!; [|done..]. intros id Hid. rewrite fmap_app in Hid.
    apply not_elem_of_app in Hid as [Hb Hbs]. by apply Hf1.
Qed.

(** X5.  Whatever its outcome, [upsert_chunks] changes nothing but index
    entries under the ids of its chunks: every other entry is as before, no
    entry disappears, the files and the scheduled tasks are untouched, and
    an index that stores each record under its own id keeps doing so. *)
Theorem upsert_chunks_frame chunks w :
  let w' := (vector.upsert_chunks E chunks w).2 in
  (∀ id, id ∉ chunk_id <$> chunks → w_index w' !! id = w_index w !! id)
  ∧ (∀ id, is_Some (w_index w !! id) → is_Some (w_index w' !! id))
  ∧ (keyed (w_index w) → keyed (w_index w'))
  ∧ w_files w' = w_files w
  ∧ w_tasks w' = w_tasks w.
Proof.
  intros w'. subst w'. rewrite upsert_chunks_batches.
  destruct (for_each_batches_frame (batches chunks) w) as (Hf & Hs & Hk).
  rewrite concat_batches in Hf.
  pose proof (for_each_batches_writes E (λ _, True) (batches chunks) w
                ltac:(done)) as (_ & Hfiles & Htasks & _).
  by split_and!.
Qed.

End upsert_more.

Section upsert_stores.
Context (E : externals).

Lemma for_each_batches_prepared bs w w' :
  for_each bs (vector.upsert_batch E) w = (Returned tt, w') →
  ∃ runs : list (list chunk * list vector_record),
    runs.*1 = bs
    ∧ Forall (λ run, ∃ h vs,
                model_encode E h (chunk_text <$> run.1) = Returned vs
                ∧ vector.prepare_records E (zip run.1 vs) = Returned run.2)
        runs
    ∧ w_index w' = foldl vector.store_records (w_index w) runs.*2.
Proof.
  revert w. induction bs as [|b bs IH]; intros w H.
  - injection H as <-. by exists [].
  - rewrite for_each_cons in H.
    pose proof (upsert_batch_run E b w) as Hrun.
    destruct (vector.upsert_batch E b w) as [[[]|e] w1]; [|done].
    simpl in Hrun. inversion Hrun as [| | |vs recs Henc Hprep Hfault]; subst.
    apply IH in H as (runs & Hruns & Hall & Hidx).
    exists ((b, recs) :: runs). split_and!.
    + by rewrite fmap_cons, Hruns.
    + constructor; [|done]. simpl. eauto.
    + done.
Qed.

Lemma store_records_from idx recs id :
  id ∈ rec_id <$> recs →
  ∃ r, vector.store_records idx recs !! id = Some r ∧ r ∈ recs
       ∧ rec_id r = id.
Proof.
  revert idx. induction recs as [|x recs IH]; intros idx Hid.
  - by apply elem_of_nil in Hid.
  - destruct (decide (id ∈ rec_id <$> recs)) as [Hin|Hout].
    + destruct (IH (<[rec_id x := x]> idx) Hin) as (r & Hr & Hrin & Hrid).
      exists r. split_and!; [done|by right|done].
    + rewrite fmap_cons in Hid. apply elem_of_cons in Hid as [->|Hid]; [|done].
      exists x. split_and!; [|left|done].
      change (vector.store_records idx (x :: recs))
        with (vector.store_records (<[rec_id x := x]> idx) recs).
      rewrite store_records_other by done. apply lookup_insert_eq.
Qed.

Lemma foldl_store_records_other idx recss id :
  Forall (λ recs, id ∉ rec_id <$> recs) recss →
  foldl vector.store_records idx recss !! id = idx !! id.
Proof.
  intros H. revert idx. induction H as [|recs recss Hid _ IH]; intros idx;
    [done|]. simpl. by rewrite IH, store_records_other.
Qed.

Lemma foldl_store_records_from idx recss recs id :
  recs ∈ recss → id ∈ rec_id <$> recs →
  ∃ r recs', foldl vector.store_records idx recss !! id = Some r
             ∧ recs' ∈ recss ∧ r ∈ recs' ∧ rec_id r = id.
Proof.
  revert idx recs. induction recss as [|x recss IH]; intros idx recs Hin Hid.
  - by apply elem_of_nil in Hin.
  - simpl.
    destruct (decide (Exists (λ recs0, id ∈ rec_id <$> recs0) recss))
      as [Hlater|Hnone].
    + apply Exists_exists in Hlater as (recs0 & Hin0 & Hid0).
      destruct (IH (vector.store_records idx x) recs0 Hin0 Hid0)
        as (r & recs' & Hr & Hin' & Hrin & Hrid).
      exists r, recs'. split_and!; [done|by right|done..].
    + apply not_Exists_Forall in Hnone; [|intros recs0; apply _].
      apply elem_of_cons in Hin as [->|Hin].
      * destruct (store_records_from idx x id Hid) as (r & Hr & Hrin & Hrid).
        exists r, x. split_and!; [|left|done..].
        by rewrite foldl_store_records_other.
      * eapply Forall_forall in Hnone; [|done]. by destruct Hnone.
Qed.

Lemma NoDup_fmap_same {A B} (f : A → B) (l : list A) x y :
  NoDup (f <$> l) → x ∈ l → y ∈ l → f x = f y → x = y.
Proof.
  induction l as [|z l IH]; intros Hnd Hx Hy Hf; [by apply elem_of_nil in Hx|].
  rewrite fmap_cons in Hnd. apply NoDup_cons in Hnd as [Hz Hnd].
  apply elem_of_cons in Hx as [->|Hx]; apply elem_of_cons in Hy as [->|Hy].
  - done.
  - destruct Hz. rewrite Hf. apply list_elem_of_fmap. eauto.
  - destruct Hz. rewrite <- Hf. apply list_elem_of_fmap. eauto.
  - by apply IH.
Qed.

(** X6.  When [upsert_chunks] returns normally and the model gives one
    embedding per text, every chunk is in the index afterwards: under the
    id of each chunk there is a record with that id whose metadata is the
    sanitized metadata of a chunk with that id, of that very chunk when the
    ids of the chunks are pairwise different. *)
Theorem upsert_chunks_stores_all chunks w w' c :
  (∀ h texts vs, model_encode E h texts = Returned vs →
                 length vs = length texts) →
  vector.upsert_chunks E chunks w = (Returned tt, w') →
  c ∈ chunks →
  ∃ r c',
    w_index w' !! chunk_id c = Some r
    ∧ rec_id r = chunk_id c
    ∧ c' ∈ chunks ∧ chunk_id c' = chunk_id c
    ∧ vector._sanitize_metadata E (chunk_metadata c')
      = Returned (rec_metadata r)
    ∧ (NoDup (chunk_id <$> chunks) → c' = c).
Proof.
  intros Hlen Hrun Hc. rewrite upsert_chunks_batches in Hrun.
  destruct (for_each_batches_prepared _ _ _ Hrun) as (runs & Hruns & Hall & Hidx).
  assert (∀ b x, b ∈ batches chunks → x ∈ b → x ∈ chunks) as Hsub.
  { intros b x Hb Hx. rewrite <- (concat_batches chunks).
    apply list_elem_of_In, in_concat. exists b.
    split; by apply list_elem_of_In. }
  assert (∃ b, b ∈ batches chunks ∧ c ∈ b) as (b & Hb & Hcb).
  { rewrite <- (concat_batches chunks) in Hc.
    apply list_elem_of_In, in_concat in Hc as (b & Hb & Hcb).
    exists b. split; by apply list_elem_of_In. }
  rewrite <- Hruns in Hb. apply list_elem_of_fmap in Hb as ([b' recs] & -> & Hrunin).
  simpl in Hcb.
  assert (∀ run, run ∈ runs → rec_id <$> run.2 = chunk_id <$> run.1
                              ∧ ∀ r, r ∈ run.2 → ∃ c', c' ∈ run.1
                                  ∧ rec_id r = chunk_id c'
                                  ∧ vector._sanitize_metadata E (chunk_metadata c')
                                    = Returned (rec_metadata r)) as Hruns_ok.
  { intros run Hin. eapply Forall_forall in Hall; [|done].
    destruct Hall as (h & vs & Henc & Hprep).
    destruct (prepare_records_ids E _ _ _ Hprep) as [Hids _].
    apply Hlen in Henc. rewrite length_fmap in Henc.
    rewrite Henc, take_ge in Hids by done. split; [done|].
    intros r Hr. by eapply prepare_records_from. }
  destruct (foldl_store_records_from (w_index w) runs.*2 recs (chunk_id c))
    as (r & recs' & Hr & Hin & Hrin & Hid).
  { apply list_elem_of_fmap. by exists (b', recs). }
  { destruct (Hruns_ok _ Hrunin) as [Hids _]. simpl in Hids.
    rewrite Hids. apply list_elem_of_fmap. eauto. }
  rewrite <- Hidx in Hr.
  apply list_elem_of_fmap in Hin as (run & -> & Hrun').
  destruct (Hruns_ok _ Hrun') as [_ Hfrom].
  destruct (Hfrom r Hrin) as (c' & Hc' & Hidc & Hsan).
  assert (c' ∈ chunks) as Hc'in.
  { eapply Hsub; [|done]. rewrite <- Hruns.
    apply list_elem_of_fmap. by exists run. }
  exists r, c'. split_and!; [done|done|done|congruence|done|].
  intros Hnd.
  eapply (NoDup_fmap_same chunk_id chunks); [done..|congruence].
Qed.

End upsert_stores.

(** ** [process_file] *)

Section process_file_more.
Context (E : externals).

Lemma process_chunks_spec h metadata i docs chunks :
  document.process_chunks E h metadata i docs = Returned chunks →
  Forall2 (λ doc c,
             chunk_text c = page_content doc
             ∧ chunk_metadata c
               = <["text" := VStr (page_content doc)]>
                   (metadata ∪ document.parser_metadata E (doc_metadata doc)))
    docs chunks
  ∧ ∀ j c, chunks !! j = Some c →
      ∃ file_id,
        document.format_value E
          (default (VStr (uuid4 E h (i + j))) (metadata !! "file_id"))
          = Returned file_id
        ∧ chunk_id c = file_id +:+ "#chunk" +:+ pretty (i + j).
Proof.
  revert i chunks. induction docs as [|doc docs IH]; intros i chunks H;
    simpl in H.
  - injection H as <-. split; [constructor|]. intros j c Hj.
    by rewrite lookup_nil in Hj.
  - destruct (document.process_chunk E h metadata i doc) as [c0|] eqn:Hc0;
      simpl in H; [|done].
    destruct (document.process_chunks E h metadata (S i) docs) as [rest|]
      eqn:Hrest; simpl in H; [|done].
    injection H as <-. destruct (IH _ _ Hrest) as [Hall Hids].
    unfold document.process_chunk in Hc0.
    destruct (document.format_value E _) as [file_id|] eqn:Hfmt;
      simpl in Hc0; [|done].
    injection Hc0 as <-. split.
    + constructor; [by split|done].
    + intros [|j] c Hj; simpl in Hj.
      * injection Hj as <-. exists file_id. rewrite Nat.add_0_r. by split.
      * destruct (Hids j c Hj) as (fid & Hf & Hid).
        exists fid. replace (i + S j) with (S i + j) by lia. by split.
Qed.

Lemma parser_metadata_no_none items key :
  document.parser_metadata E items !! key ≠ Some VNone.
Proof.
  unfold document.parser_metadata.
  assert (∀ acc : gmap string pyval, acc !! key ≠ Some VNone →
            foldl (λ acc kv,
                     match kv.2, document.key_str E kv.1 with
                     | VNone, _ => acc
                     | _, Some k => <[k := kv.2]> acc
                     | _, None => acc
                     end) acc items !! key ≠ Some VNone) as H.
  { induction items as [|[k v] items IH]; intros acc Hacc; [done|].
    simpl. apply IH.
    destruct v; try done;
      (destruct (document.key_str E k) as [ks|]; [|done];
       destruct (decide (ks = key)) as [->|Hne];
       [by rewrite lookup_insert_eq|by rewrite lookup_insert_ne]). }
  apply H. by rewrite lookup_empty.
Qed.

(** X7.  With a string [file_id] in the metadata, [process_file] returns,
    for the documents the splitter produced, as many chunks in the same
    order, chunk [i] carrying the text of document [i] and the id
    [file_id#chunk<i>]; these ids are pairwise different. *)
Theorem process_file_chunk_ids file_path metadata file_id docs w :
  metadata !! "file_id" = Some (VStr file_id) →
  load_and_split E (w_history w) file_path = Returned docs →
  ∃ chunks,
    document.process_file E file_path metadata w
      = (Returned chunks, record_event (EvLoad file_path) w)
    ∧ chunk_text <$> chunks = page_content <$> docs
    ∧ (∀ i c, chunks !! i = Some c →
              chunk_id c = file_id +:+ "#chunk" +:+ pretty i)
    ∧ NoDup (chunk_id <$> chunks).
Proof.
  intros Hfid Hload.
  unfold document.process_file, document.load_documents, with_history,
    mbind, M_bind. rewrite Hload. simpl.
  assert (∀ i, is_returned
            (document.process_chunks E (w_history w ++ [EvLoad file_path])
               metadata i docs)) as Htotal.
  { induction docs as [|doc docs' IH] in |- *; intros i; simpl; [done|].
    unfold document.process_chunk at 1. rewrite Hfid. simpl.
    specialize (IH (S i)).
    by destruct (document.process_chunks E _ metadata (S i) docs'). }
  specialize (Htotal 0).
  destruct (document.process_chunks E _ metadata 0 docs) as [chunks|]
    eqn:Hchunks; [|done].
  exists chunks. destruct (process_chunks_spec _ _ _ _ _ Hchunks) as [Hall Hids].
  assert (∀ i c, chunks !! i = Some c →
                 chunk_id c = file_id +:+ "#chunk" +:+ pretty i) as Hid.
  { intros i c Hc. destruct (Hids i c Hc) as (fid & Hf & ->).
    rewrite Hfid in Hf. simpl in Hf. by injection Hf as <-. }
  split_and!; [done| |done|].
  - clear -Hall. induction Hall as [|doc c docs chunks [Ht _] _ IH]; [done|].
    rewrite !fmap_cons. by rewrite Ht, IH.
  - apply NoDup_alt. intros i j id Hi Hj.
    rewrite list_lookup_fmap in Hi, Hj.
    destruct (chunks !! i) as [ci|] eqn:Hci; [|done].
    destruct (chunks !! j) as [cj|] eqn:Hcj; [|done].
    simpl in Hi, Hj. rewrite (Hid _ _ Hci) in Hi. rewrite (Hid _ _ Hcj) in Hj.
    injection Hi as <-. injection Hj as Hj.
    apply (inj (String.app file_id)), (inj (String.app "#chunk")) in Hj.
    by apply (inj pretty) in Hj.
Qed.

(** X8.  In the metadata of every chunk [process_file] returns, ["text"]
    is the text of the chunk, whatever the caller or the parser put under
    that key; every other key has the caller's value when the caller has
    one and the parser's otherwise; and no parser field is [None]. *)
Theorem process_file_metadata_precedence file_path metadata w chunks w' :
  document.process_file E file_path metadata w = (Returned chunks, w') →
  ∃ docs,
    load_and_split E (w_history w) file_path = Returned docs
    ∧ Forall2 (λ doc c,
         chunk_metadata c !! "text" = Some (VStr (chunk_text c))
         ∧ chunk_text c = page_content doc
         ∧ ∀ key, key ≠ "text" →
             chunk_metadata c !! key
             = match metadata !! key with
               | Some v => Some v
               | None =>
                   document.parser_metadata E (doc_metadata doc) !! key
               end
             ∧ document.parser_metadata E (doc_metadata doc) !! key
               ≠ Some VNone) docs chunks.
Proof.
  unfold document.process_file, document.load_documents, with_history,
    mbind, M_bind.
  destruct (load_and_split E (w_history w) file_path) as [docs|]; simpl;
    [|done].
  destruct (document.process_chunks E _ metadata 0 docs) as [chunks'|]
    eqn:Hchunks; [|done]. intros [= <- <-].
  exists docs. split; [done|].
  destruct (process_chunks_spec _ _ _ _ _ Hchunks) as [Hall _].
  eapply Forall2_impl; [exact Hall|]. intros doc c [Ht Hm]. simpl.
  split_and!; [|done|].
  - by rewrite Hm, lookup_insert_eq, Ht.
  - intros key Hkey. split; [|apply parser_metadata_no_none].
    rewrite Hm, lookup_insert_ne by done. rewrite lookup_union.
    by destruct (metadata !! key),
      (document.parser_metadata E (doc_metadata doc) !! key).
Qed.

End process_file_more.

(** ** Retrieval and the query endpoint *)

Section retrieval_more.
Context (E : externals).

Lemma extract_texts_textless matches :
  Forall textless matches → search.extract_texts matches = [].
Proof.
  unfold search.extract_texts, textless.
  induction 1 as [|m matches Hm _ IH]; [done|]. simpl. by rewrite Hm.
Qed.

(** X9.  A tenant for whom the index holds no record with a non-empty
    text, in particular a tenant with no record at all, gets the empty
    context, and the endpoint then answers with the fixed no-documents
    message under status ["success"], without consulting the reranker or
    the language model. *)
Theorem query_rag_no_documents idx request :
  (∀ id r, idx !! id = Some r → tagged (chat.user_id request) r →
           textless r) →
  is_returned (query_encode E (chat.query request)) →
  (∀ v, index_query_fault E v = None) →
  search.get_context E idx (chat.query request) (chat.user_id request)
    = Returned ""
  ∧ chat.query_rag E idx request
    = Returned {| chat.answer := chat.no_documents;
                  chat.status := "success" |}.
Proof.
  intros Hless Henc Hfault.
  assert (search.get_context E idx (chat.query request) (chat.user_id request)
          = Returned "") as Hctx.
  { unfold search.get_context, try_catch.
    destruct (query_encode E (chat.query request)) as [query_emb|]; [|done].
    simpl.
    destruct (search.index_query E idx query_emb _ (chat.user_id request))
      as [matches|e] eqn:Hq; simpl.
    - destruct matches as [|m0 matches]; [done|].
      rewrite extract_texts_textless; [done|].
      apply Forall_forall. intros m Hm.
      destruct (index_query_sound E _ _ _ _ _ _ Hq Hm) as [Htag [id Hid]].
      by eapply Hless.
    - unfold search.index_query in Hq. by rewrite Hfault in Hq. }
  split; [done|]. by rewrite query_rag_cases, Hctx.
Qed.

Lemma mapM_pick_out_of_range chunks indices i :
  i ∈ indices → length chunks ≤ i →
  mapM (search.pick chunks) indices
  = Raised (Exn IndexError "list index out of range").
Proof.
  intros Hin Hi. induction indices as [|j indices IH];
    [by apply elem_of_nil in Hin|].
  rewrite mapM_outcome_cons. unfold search.pick at 1.
  destruct (chunks !! j) as [c|] eqn:Hj; [|done].
  apply elem_of_cons in Hin as [->|Hin].
  - apply lookup_lt_Some in Hj. lia.
  - by rewrite IH.
Qed.

(** X10.  When the reranker names a result index beyond the documents it
    was given, [get_context] raises [IndexError] and the endpoint answers
    with status ["error"] and the labelled text of that error. *)
Theorem query_rag_rerank_index_error idx request query_emb matches reranked i :
  query_encode E (chat.query request) = Returned query_emb →
  search.index_query E idx query_emb (RETRIEVAL_LIMIT (settings E))
    (chat.user_id request) = Returned matches →
  search.extract_texts matches ≠ [] →
  cohere_rerank E (chat.query request) (search.extract_texts matches)
    (RERANK_LIMIT (settings E)) (COHERE_RERANK_MODEL (settings E))
    = Returned reranked →
  i ∈ reranked → length (search.extract_texts matches) ≤ i →
  search.get_context E idx (chat.query request) (chat.user_id request)
    = Raised (Exn IndexError "list index out of range")
  ∧ chat.query_rag E idx request
    = Returned {| chat.answer :=
                    "Error processing your query: list index out of range";
                  chat.status := "error" |}.
Proof.
  intros Henc Hq Hne Hrr Hin Hi.
  assert (search.get_context E idx (chat.query request) (chat.user_id request)
          = Raised (Exn IndexError "list index out of range")) as Hctx.
  { unfold search.get_context, try_catch. rewrite Henc. simpl.
    rewrite Hq. simpl.
    destruct matches as [|m0 matches]; [done|].
    destruct (search.extract_texts (m0 :: matches)) as [|c0 chunks] eqn:Hex;
      [done|].
    rewrite Hrr. simpl.
    by rewrite (mapM_pick_out_of_range _ _ i). }
  split; [done|]. rewrite query_rag_cases, Hctx. done.
Qed.

End retrieval_more.

Section error_answers.

Lemma len_app a b : len (a +:+ b) = len a + len b.
Proof. unfold len. induction a as [|c a IH]; simpl; [done|]. by rewrite IH. Qed.

Lemma str_take_all n s : len s ≤ n → str_take n s = s.
Proof.
  unfold len. revert s. induction n as [|n IH]; intros [|c s] H; simpl in *;
    try done; [lia|]. rewrite IH; [done|lia].
Qed.

Lemma chars_rev_app s1 s2 :
  chars (String.rev_app s1 s2) = rev (chars s1) ++ chars s2.
Proof.
  unfold chars. revert s2. induction s1 as [|c s1 IH]; intros s2; simpl;
    [done|]. rewrite IH. simpl. by rewrite <- app_assoc.
Qed.

Lemma chars_rev s : chars (String.rev s) = rev (chars s).
Proof. unfold String.rev. by rewrite chars_rev_app, app_nil_r. Qed.

Lemma rev_rev s : String.rev (String.rev s) = s.
Proof. apply chars_inj. by rewrite !chars_rev, rev_involutive. Qed.

(** Text between two characters that are no whitespace is left alone by
    [strip]. *)
Lemma strip_wrapped c middle :
  is_space c = false →
  strip (String c (middle +:+ String c "")) = String c (middle +:+ String c "").
Proof.
  intros Hc. unfold strip, rstrip. simpl. rewrite Hc.
  assert (∃ rest, String.rev (String c (middle +:+ String c ""))
                  = String c rest) as [rest Hrest].
  { exists (String.rev (String c middle)). apply chars_inj.
    rewrite chars_rev. change (chars (String c (middle +:+ String c "")))
      with (c :: chars (middle +:+ String c "")).
    rewrite chars_app. simpl. rewrite rev_app_distr. simpl.
    change (chars (String c (String.rev (String c middle))))
      with (c :: chars (String.rev (String c middle))).
    by rewrite chars_rev. }
  rewrite Hrest. simpl. rewrite Hc, <- Hrest. apply rev_rev.
Qed.

Lemma endswith_last s c : endswith (s +:+ String c "") c = true.
Proof.
  induction s as [|a s IH].
  - simpl. by apply bool_decide_eq_true_2.
  - change (String a s +:+ String c "") with (String a (s +:+ String c "")).
    simpl. destruct (s +:+ String c "") eqn:Hs; [|done].
    by destruct s.
Qed.

(** X11.  The text of an exception that is a name of fewer than 48
    characters between two single or two double quotes, as [str] of a
    [KeyError] is, never reaches the user: the endpoint gives the
    try-again message. *)
Theorem error_response_hides_quoted_key e q key :
  q = squote_char ∨ q = dquote_char →
  exn_text e = String q (key +:+ String q "") →
  len key < 48 →
  chat.error_response e
  = {| chat.answer := chat.please_try_again; chat.status := "error" |}.
Proof.
  intros Hq Htext Hlen. unfold chat.error_response. rewrite Htext.
  assert (len (String q (key +:+ String q "")) = len key + 2) as Hl.
  { change (String q (key +:+ String q ""))
      with (String q "" +:+ (key +:+ String q "")).
    rewrite !len_app. unfold len. simpl. lia. }
  rewrite str_take_all by lia.
  rewrite strip_wrapped by (by destruct Hq as [->| ->]).
  cbv zeta. rewrite bool_decide_eq_false_2 by done.
  assert ((len (String q (key +:+ String q "")) <? 50) = true) as ->
    by (apply Nat.ltb_lt; lia).
  assert (chat.quoted (String q (key +:+ String q "")) = true) as ->; [|done].
  unfold chat.quoted.
  change (String q (key +:+ String q ""))
    with (String q key +:+ String q "").
  assert (startswith (String q key +:+ String q "") q = true) as Hstart
    by (by apply bool_decide_eq_true_2).
  destruct Hq as [->| ->]; rewrite endswith_last, Hstart; [done|].
  apply orb_true_r.
Qed.

(** X12.  The answer of the error path is at most 229 characters long: the
    label and at most 200 characters of the exception's text. *)
Theorem error_response_bounded e :
  len (chat.answer (chat.error_response e)) ≤ 229.
Proof.
  unfold chat.error_response. cbn [chat.answer].
  set (raw := strip (str_take 200 (exn_text e))).
  assert (len raw ≤ 200) as Hraw.
  { etrans; [apply strip_length|apply str_take_length]. }
  assert (len chat.please_try_again = 64) as Hgeneric by (by vm_compute).
  assert (len chat.error_label = 29) as Hlabel by (by vm_compute).
  case_bool_decide; [lia|].
  destruct ((len raw <? 50) && chat.quoted raw); [lia|].
  rewrite len_app. lia.
Qed.

End error_answers.

(** ** Runs of the further properties on examples *)

(** A batch of two chunks against a model that answers with one vector: one
    record is stored, the second chunk is dropped without an error. *)
Lemma upsert_batch_pairs_witness :
  let E := one_vector (demo.providers [] demo.reply_ok) in
  let w := demo.empty_world in
  let w' := (vector.upsert_batch E two_chunks w).2 in
  ∃ vs recs,
    model_encode E (w_history w) (chunk_text <$> two_chunks) = Returned vs
    ∧ w_history w'
      = w_history w ++ [EvEncode (chunk_text <$> two_chunks); EvUpsert recs]
    ∧ rec_id <$> recs = chunk_id <$> take (length vs) two_chunks
    ∧ rec_values <$> recs = take (length two_chunks) vs
    ∧ w_index w' = vector.store_records (w_index w) recs.
Proof.
  intros E w w'. apply (upsert_batch_pairs E two_chunks w w').
  vm_compute. reflexivity.
Defined.

Lemma upsert_chunks_stores_all_witness :
  let E := demo.providers [] demo.reply_ok in
  let c := Chunk "a" "one" {[ "user_id" := VStr "u1" ]} in
  let w' := (vector.upsert_chunks E two_chunks demo.empty_world).2 in
  ∃ r c',
    w_index w' !! chunk_id c = Some r
    ∧ rec_id r = chunk_id c
    ∧ c' ∈ two_chunks ∧ chunk_id c' = chunk_id c
    ∧ vector._sanitize_metadata E (chunk_metadata c')
      = Returned (rec_metadata r)
    ∧ (NoDup (chunk_id <$> two_chunks) → c' = c).
Proof.
  intros E c w'.
  apply (upsert_chunks_stores_all E two_chunks demo.empty_world w' c).
  - intros h texts vs [= <-]. apply length_fmap.
  - vm_compute. reflexivity.
  - apply list_elem_of_here.
Defined.

Lemma process_file_chunk_ids_witness :
  let E := demo.providers two_documents demo.reply_ok in
  let metadata := ingest.upload_metadata "f1" "a.txt" "u1" ".txt" in
  let w := demo.empty_world in
  ∃ chunks,
    document.process_file E "/tmp/x" metadata w
      = (Returned chunks, record_event (EvLoad "/tmp/x") w)
    ∧ chunk_text <$> chunks = page_content <$> two_documents
    ∧ (∀ i c, chunks !! i = Some c →
              chunk_id c = "f1" +:+ "#chunk" +:+ pretty i)
    ∧ NoDup (chunk_id <$> chunks).
Proof.
  intros E metadata w.
  apply (process_file_chunk_ids E "/tmp/x" metadata "f1" two_documents w);
    reflexivity.
Defined.

(** The parser's ["user_id"] gives way to the caller's, its ["page"] is
    kept, its [None] under ["links"] is dropped. *)
Lemma process_file_metadata_precedence_witness :
  let E := demo.providers two_documents demo.reply_ok in
  let metadata := ingest.upload_metadata "f1" "a.txt" "u1" ".txt" in
  let run := document.process_file E "/tmp/x" metadata demo.empty_world in
  let chunks := match run.1 with Returned chunks => chunks | Raised _ => [] end in
  length chunks = 2
  ∧ ∃ docs,
    load_and_split E (w_history demo.empty_world) "/tmp/x" = Returned docs
    ∧ Forall2 (λ doc c,
         chunk_metadata c !! "text" = Some (VStr (chunk_text c))
         ∧ chunk_text c = page_content doc
         ∧ ∀ key, key ≠ "text" →
             chunk_metadata c !! key
             = match metadata !! key with
               | Some v => Some v
               | None =>
                   document.parser_metadata E (doc_metadata doc) !! key
               end
             ∧ document.parser_metadata E (doc_metadata doc) !! key
               ≠ Some VNone) docs chunks.
Proof.
  intros E metadata run chunks. split; [reflexivity|].
  apply (process_file_metadata_precedence E "/tmp/x" metadata
           demo.empty_world chunks run.2).
  vm_compute. reflexivity.
Defined.

(** A tenant without records asks the index of the isolation test. *)
Lemma query_rag_no_documents_witness :
  let E := demo.providers [] demo.reply_ok in
  let request := chat.Build_ChatRequest "What is the secret password?" "nobody" in
  search.get_context E demo.secret_index (chat.query request)
    (chat.user_id request) = Returned ""
  ∧ chat.query_rag E demo.secret_index request
    = Returned {| chat.answer := chat.no_documents;
                  chat.status := "success" |}.
Proof.
  intros E request.
  apply (query_rag_no_documents E demo.secret_index request).
  - intros id r Hid Htag. unfold demo.secret_index in Hid.
    apply lookup_insert_Some in Hid as [[_ <-]|[_ Hid]].
    + vm_compute in Htag. discriminate Htag.
    + apply lookup_singleton_Some in Hid as [_ <-].
      vm_compute in Htag. discriminate Htag.
  - exact I.
  - intros v. reflexivity.
Defined.

Lemma query_rag_rerank_index_error_witness :
  let E := stray_rerank (demo.providers [] demo.reply_ok) in
  let request := chat.Build_ChatRequest "q" "tenant_b" in
  search.get_context E demo.dashes_index (chat.query request)
    (chat.user_id request)
    = Raised (Exn IndexError "list index out of range")
  ∧ chat.query_rag E demo.dashes_index request
    = Returned {| chat.answer :=
                    "Error processing your query: list index out of range";
                  chat.status := "error" |}.
Proof.
  intros E request.
  apply (query_rag_rerank_index_error E demo.dashes_index request [1%Z]
           (match search.index_query E demo.dashes_index [1%Z] 50 "tenant_b"
            with Returned matches => matches | Raised _ => [] end) [7] 7).
  - reflexivity.
  - vm_compute. reflexivity.
  - vm_compute. discriminate.
  - reflexivity.
  - apply list_elem_of_here.
  - vm_compute. lia.
Defined.

(** [str(KeyError('user_id'))] *)
Lemma error_response_hides_quoted_key_witness :
  chat.error_response (Exn KeyError "'user_id'")
  = {| chat.answer := chat.please_try_again; chat.status := "error" |}.
Proof.
  apply (error_response_hides_quoted_key (Exn KeyError "'user_id'")
           squote_char "user_id").
  - left. reflexivity.
  - reflexivity.
  - vm_compute. lia.
Defined.

(** ** The ingestion pipeline and the upload endpoint *)

Section ingest_more.
Context (E : externals).

(** X13.  When the parser finds nothing in the file, or raises, the pipeline
    makes no embedding and no upsert call and leaves the index alone: after
    the load it only removes the file if there is one.  It returns normally
    in the first case and raises the parser's exception in the second. *)
Theorem run_ingestion_pipeline_nothing_parsed file_path metadata w :
  match load_and_split E (w_history w) file_path with
  | Returned docs => docs = []
  | Raised _ => True
  end →
  ∃ w',
    ingest.run_ingestion_pipeline E file_path metadata w
    = (match load_and_split E (w_history w) file_path with
       | Returned _ => Returned tt
       | Raised e => Raised e
       end, w')
    ∧ w_index w' = w_index w
    ∧ w_tasks w' = w_tasks w
    ∧ w_history w'
      = w_history w
          ++ EvLoad file_path
             :: (if decide (file_path ∈ w_files w) then [EvRemove file_path]
                 else []).
Proof.
  intros Hdocs.
  assert (ingest.pipeline_body E file_path metadata w
          = (match load_and_split E (w_history w) file_path with
             | Returned _ => Returned tt
             | Raised e => Raised e
             end, record_event (EvLoad file_path) w)) as Hbody.
  { unfold ingest.pipeline_body, try_except, document.process_file, mbind,
      M_bind, document.load_documents, with_history, raise.
    destruct (load_and_split E (w_history w) file_path) as [docs|e]; simpl;
      [|done]. by subst docs. }
  destruct (run_ingestion_pipeline_unfold E file_path metadata w)
    as (w' & Hclean & Hrun).
  rewrite Hbody in Hclean, Hrun. simpl in Hclean, Hrun.
  destruct (cleanup_spec E file_path (record_event (EvLoad file_path) w))
    as (w2 & Hclean' & Hidx & Htasks & Hrm).
  rewrite Hclean in Hclean'. injection Hclean' as <-.
  exists w'. split_and!; [done|done|done|].
  simpl in Hrm. destruct (decide (file_path ∈ w_files w)).
  - destruct Hrm as [-> _]. simpl. by rewrite <- app_assoc.
  - by subst w'.
Qed.

Lemma upload_document_accepted form w resp w1 :
  ingest.upload_document E form w = (ingest.HttpOk resp, w1) →
  ∃ name file_path,
    ingest.filename form = Some name ∧ name ≠ ""
    ∧ ingest.too_large E (ingest.content_length form) = false
    ∧ splitext_lower E name ∈ ingest._ALLOWED_EXTENSIONS E
    ∧ w_files w1 = w_files w ∪ {[ file_path ]}
    ∧ w_tasks w1
      = w_tasks w
          ++ [(file_path,
               ingest.upload_metadata (ingest.up_file_id resp) name
                 (ingest.form_default (ingest.form_user_id form))
                 (splitext_lower E name))]
    ∧ w_index w1 = w_index w.
Proof.
  unfold ingest.upload_document.
  destruct (ingest.too_large E (ingest.content_length form)); [done|].
  destruct (ingest.filename form) as [[|c name]|]; [done| |done].
  case_decide as Hext; [|done]. unfold ingest.save_upload.
  destruct (save_fault E (w_history w) _) as [e|]; [done|].
  intros Hup. injection Hup as <- <-.
  eexists (String c name), _. by split_and!.
Qed.

(** X14.  The upload endpoint answers a refused upload with 413, 400 or
    500, 413 exactly when the announced size is over the limit, and then
    schedules nothing.  An accepted upload had a name with an allowed
    extension, its file is in the temporary storage, and exactly one task is
    scheduled, whose metadata carries the identifier returned to the caller.
    In no case is the index touched. *)
Theorem upload_document_outcomes form w :
  match ingest.upload_document E form w with
  | (ingest.HttpError code _, w') =>
      (code = 413 ∨ code = 400 ∨ code = 500)
      ∧ (code = 413 ↔ ingest.too_large E (ingest.content_length form) = true)
      ∧ w_tasks w' = w_tasks w
      ∧ w_index w' = w_index w
  | (ingest.HttpOk resp, w') =>
      ∃ name file_path,
        ingest.filename form = Some name ∧ name ≠ ""
        ∧ ingest.too_large E (ingest.content_length form) = false
        ∧ splitext_lower E name ∈ ingest._ALLOWED_EXTENSIONS E
        ∧ file_path ∈ w_files w'
        ∧ w_tasks w'
          = w_tasks w
              ++ [(file_path,
                   ingest.upload_metadata (ingest.up_file_id resp) name
                     (ingest.form_default (ingest.form_user_id form))
                     (splitext_lower E name))]
        ∧ w_index w' = w_index w
  end.
Proof.
  destruct (ingest.upload_document E form w) as [[resp|code detail] w']
    eqn:Hup.
  { destruct (upload_document_accepted _ _ _ _ Hup)
      as (name & file_path & ? & ? & ? & ? & Hfiles & ? & ?).
    exists name, file_path. split_and!; try done.
    rewrite Hfiles. apply elem_of_union_r, elem_of_singleton. reflexivity. }
  revert Hup. unfold ingest.upload_document.
  destruct (ingest.too_large E (ingest.content_length form)) eqn:Hlarge.
  { intros [= <- _ <-]. split_and!; [by left| done | done | done]. }
  destruct (ingest.filename form) as [[|c name]|] eqn:Hname.
  - intros [= <- _ <-].
    split_and!; [right; by left| split; intros; done | done | done].
  - case_decide as Hext.
    + unfold ingest.save_upload.
      destruct (save_fault E (w_history w) _) as [e|]; simpl; [|done].
      intros [= <- _ <-].
      split_and!; [right; by right| split; intros; done | done | done].
    + intros [= <- _ <-].
      split_and!; [right; by left| split; intros; done | done | done].
  - intros [= <- _ <-].
    split_and!; [right; by left| split; intros; done | done | done].
Qed.

(** X15.  An accepted upload followed by the run of its task: the schedule
    is empty again, every record the index gained carries the tenant of the
    form and the identifier returned to the caller, whether or not the
    pipeline failed on the way, and when [os.remove] does not fail the
    temporary storage holds what it held before, without the uploaded
    file. *)
Theorem upload_then_ingest form w resp w1 :
  ingest.upload_document E form w = (ingest.HttpOk resp, w1) →
  w_tasks w = [] →
  let w2 := (ingest.run_next_task E w1).2 in
  w_tasks w2 = []
  ∧ (∀ id r, w_index w2 !! id = Some r →
       w_index w !! id = Some r
       ∨ (tagged (ingest.form_default (ingest.form_user_id form)) r
          ∧ rec_metadata r !! "file_id"
            = Some (VStr (ingest.up_file_id resp))))
  ∧ ((∀ h p, os_remove_fault E h p = None) →
     ∃ file_path,
       (file_path ∉ w_files w2)
       ∧ ∀ p, p ≠ file_path → (p ∈ w_files w2 ↔ p ∈ w_files w)).
Proof.
  intros Hup Hempty.
  destruct (upload_document_accepted _ _ _ _ Hup)
    as (name & file_path & _ & _ & _ & _ & Hfiles & Htasks & Hidx).
  rewrite Hempty in Htasks. simpl in Htasks.
  set (uid := ingest.form_default (ingest.form_user_id form)) in *.
  set (metadata := ingest.upload_metadata _ _ _ _) in *.
  unfold ingest.run_next_task. rewrite Htasks. cbv zeta.
  set (w1' := World (w_index w1) (w_files w1) [] (w_history w1)).
  destruct (run_ingestion_pipeline_unfold E file_path metadata w1')
    as (w2 & Hclean & Hrun).
  rewrite Hrun. simpl.
  pose proof (pipeline_body_spec E
                (λ r, tagged uid r
                      ∧ rec_metadata r !! "file_id"
                        = Some (VStr (ingest.up_file_id resp)))
                file_path metadata w1')
    as (Hnew & Hsame_files & Hsame_tasks & _).
  { intros chunks c san emb Hchunks Hc Hsan. unfold tagged; simpl. split.
    - eapply (sanitize_keeps_string E); [|done|].
      + apply (bool_decide_eq_false_1 ("user_id" ∈ vector.exclude_fields)).
        by vm_compute.
      + by eapply process_chunks_keeps.
    - eapply (sanitize_keeps_string E); [|done|].
      + apply (bool_decide_eq_false_1 ("file_id" ∈ vector.exclude_fields)).
        by vm_compute.
      + by eapply process_chunks_keeps. }
  simpl in Hnew, Hsame_files, Hsame_tasks.
  destruct (cleanup_spec E file_path
              (ingest.pipeline_body E file_path metadata w1').2)
    as (w3 & Hclean' & Hidx3 & Htasks3 & Hrm).
  rewrite Hclean in Hclean'. injection Hclean' as <-.
  split_and!.
  - by rewrite Htasks3, Hsame_tasks.
  - intros id r Hr. rewrite Hidx3 in Hr. rewrite <- Hidx. by apply Hnew.
  - intros Hnofault. exists file_path.
    rewrite Hsame_files in Hrm.
    destruct (decide (file_path ∈ w_files w1)) as [_|Hnot].
    2: { exfalso. apply Hnot. rewrite Hfiles.
         apply elem_of_union_r, elem_of_singleton. reflexivity. }
    destruct Hrm as [_ Hrm]. rewrite Hnofault in Hrm. rewrite Hrm.
    split.
    + intros [_ Hne]%elem_of_difference. apply Hne. by apply elem_of_singleton.
    + intros p Hp. rewrite elem_of_difference, elem_of_singleton.
      rewrite Hfiles, elem_of_union, elem_of_singleton. tauto.
Qed.

End ingest_more.

(** ** The status endpoint *)

Section status_more.
Context (E : externals).

Lemma index_query_file_count idx query_emb top_k file_id user_id :
  ∃ matches,
    status.index_query_file E None idx query_emb top_k file_id user_id
    = Returned matches
    ∧ length matches = min top_k (size (file_records file_id user_id idx)).
Proof.
  eexists. split; [reflexivity|].
  rewrite length_take.
  rewrite (Permutation_length (merge_sort_Permutation _ _)).
  by rewrite length_fmap, length_map_to_list.
Qed.

Lemma get_processing_status_shape file_id user_id idx :
  0 < size (file_records file_id user_id idx) →
  ∃ resp,
    status.get_processing_status E
      {| status.connect_fault := None; status.exists_query_fault := None;
         status.count_query_fault := None |} idx file_id user_id
    = ingest.HttpOk resp
    ∧ status.st_status resp = "completed"
    ∧ status.st_chunk_count resp
      = min status.count_limit (size (file_records file_id user_id idx)).
Proof.
  intros Hfound. unfold status.get_processing_status.
  cbn [status.connect_fault status.exists_query_fault
       status.count_query_fault].
  destruct (index_query_file_count idx
              (replicate (PINECONE_DIMENSION (settings E)) 0%Z) 1
              file_id user_id) as (first & -> & Hfirst).
  destruct first as [|m first]; [cbn [length] in Hfirst; lia|].
  destruct (index_query_file_count idx
              (replicate (PINECONE_DIMENSION (settings E)) 0%Z)
              status.count_limit file_id user_id) as (all & -> & Hall).
  eexists. split; [reflexivity|]. by simpl.
Qed.

(** X16.  The status endpoint fails, with 500, exactly when the connection
    to the index cannot be set up.  Otherwise it answers for the file and
    tenant it was asked about, with ["completed"] exactly when the index
    holds a record of that file and tenant and both queries go through, and
    then with the number of such records, at most 10000; in every other case
    with ["processing"] and a count of 0.  It never answers
    ["not_found"]. *)
Theorem get_processing_status_cases F idx file_id user_id :
  let found := size (file_records file_id user_id idx) in
  match status.get_processing_status E F idx file_id user_id with
  | ingest.HttpError code _ =>
      code = 500 ∧ is_Some (status.connect_fault F)
  | ingest.HttpOk resp =>
      status.connect_fault F = None
      ∧ status.st_file_id resp = file_id
      ∧ status.st_user_id resp = user_id
      ∧ (status.st_status resp = "completed"
         ↔ 0 < found ∧ status.exists_query_fault F = None
           ∧ status.count_query_fault F = None)
      ∧ (status.st_status resp = "completed" →
         status.st_chunk_count resp = min status.count_limit found)
      ∧ (status.st_status resp ≠ "completed" →
         status.st_status resp = "processing"
         ∧ status.st_chunk_count resp = 0)
  end.
Proof.
  intros found. unfold status.get_processing_status, status.processing.
  destruct (status.connect_fault F) as [e|]; [by split; eauto|].
  destruct (status.exists_query_fault F) as [e|].
  { cbn. split_and!; try done. split; [done|]. by intros (_ & ? & _). }
  destruct (index_query_file_count idx
              (replicate (PINECONE_DIMENSION (settings E)) 0%Z) 1
              file_id user_id) as (first & -> & Hfirst).
  fold found in Hfirst.
  destruct first as [|m first]; cbn [length] in Hfirst.
  { cbn [status.st_status status.st_file_id status.st_user_id
         status.st_chunk_count].
    split_and!; try done. split; [done|]. intros (? & _). lia. }
  destruct (status.count_query_fault F) as [e|].
  { cbn [status.st_status status.st_file_id status.st_user_id
         status.st_chunk_count].
    split_and!; try done. split; [done|]. by intros (_ & _ & ?). }
  destruct (index_query_file_count idx
              (replicate (PINECONE_DIMENSION (settings E)) 0%Z)
              status.count_limit file_id user_id) as (all & -> & Hall).
  fold found in Hall.
  cbn [status.st_status status.st_file_id status.st_user_id
       status.st_chunk_count].
  split_and!; try done.
  split; [|done]. intros _. split_and!; [lia|done|done].
Qed.

Lemma foldl_store_records_concat idx recss :
  foldl vector.store_records idx recss
  = vector.store_records idx (concat recss).
Proof.
  revert idx. induction recss as [|recs recss IH]; intros idx; [done|].
  simpl. rewrite IH. unfold vector.store_records. by rewrite foldl_app.
Qed.

Lemma Forall2_concat_chunks {A B} (R : A → B → Prop) xss yss :
  Forall2 (Forall2 R) xss yss → Forall2 R (concat xss) (concat yss).
Proof.
  induction 1 as [|xs ys xss yss H _ IH]; [constructor|].
  simpl. by apply Forall2_app.
Qed.

(** A run of [upsert_chunks] that ends normally with a model that gives one
    vector per text: what the index holds afterwards. *)
Lemma upsert_chunks_records chunks w w' :
  (∀ h texts vs, model_encode E h texts = Returned vs →
                 length vs = length texts) →
  vector.upsert_chunks E chunks w = (Returned tt, w') →
  ∃ recs,
    w_index w' = vector.store_records (w_index w) recs
    ∧ Forall2 (λ c r, rec_id r = chunk_id c
                      ∧ vector._sanitize_metadata E (chunk_metadata c)
                        = Returned (rec_metadata r)) chunks recs.
Proof.
  intros Hlen Hrun. rewrite upsert_chunks_batches in Hrun.
  destruct (for_each_batches_prepared E _ _ _ Hrun)
    as (runs & Hruns & Hall & Hidx).
  exists (concat runs.*2). split.
  { by rewrite Hidx, foldl_store_records_concat. }
  rewrite <- (concat_batches chunks), <- Hruns.
  apply Forall2_concat_chunks.
  apply Forall2_fmap. apply Forall_Forall2_diag.
  eapply Forall_impl; [exact Hall|].
  intros [b recs] (h & vs & Henc & Hprep). simpl in *.
  apply Hlen in Henc. rewrite length_fmap in Henc.
  apply (prepare_records_spec E) in Hprep.
  rewrite <- (fst_zip b vs) at 1 by lia.
  apply Forall2_fmap_l.
  eapply Forall2_impl; [exact Hprep|].
  intros [c emb] r (Hid & _ & Hsan). by simpl in *.
Qed.

Lemma size_file_records_store file_id user_id idx recs :
  NoDup (rec_id <$> recs) →
  Forall (λ r, status.matches_file file_id user_id r = true) recs →
  (∀ r, r ∈ recs → file_records file_id user_id idx !! rec_id r = None) →
  size (file_records file_id user_id (vector.store_records idx recs))
  = size (file_records file_id user_id idx) + length recs.
Proof.
  revert idx. induction recs as [|r recs IH]; intros idx Hnd Hall Hfresh.
  { simpl. lia. }
  rewrite fmap_cons in Hnd. apply NoDup_cons in Hnd as [Hr Hnd].
  apply Forall_cons in Hall as [Hm Hall].
  change (vector.store_records idx (r :: recs))
    with (vector.store_records (<[rec_id r := r]> idx) recs).
  assert (file_records file_id user_id (<[rec_id r := r]> idx)
          = <[rec_id r := r]> (file_records file_id user_id idx)) as Hins.
  { unfold file_records. apply map_filter_insert_True. simpl. by rewrite Hm. }
  rewrite IH; [|done|done|].
  - rewrite Hins, map_size_insert_None; [simpl; lia|].
    apply Hfresh, list_elem_of_here.
  - intros r' Hr'. rewrite Hins, lookup_insert_ne.
    + apply Hfresh. by apply list_elem_of_further.
    + intros Heq. apply Hr. rewrite Heq. apply list_elem_of_fmap. eauto.
Qed.

Lemma process_chunks_ids h metadata file_id docs :
  metadata !! "file_id" = Some (VStr file_id) →
  ∃ chunks,
    document.process_chunks E h metadata 0 docs = Returned chunks
    ∧ length chunks = length docs
    ∧ NoDup (chunk_id <$> chunks).
Proof.
  intros Hfid.
  assert (∀ i, is_returned (document.process_chunks E h metadata i docs))
    as Htotal.
  { induction docs as [|doc docs' IH] in |- *; intros i; simpl; [done|].
    unfold document.process_chunk at 1. rewrite Hfid. simpl.
    specialize (IH (S i)).
    by destruct (document.process_chunks E _ metadata (S i) docs'). }
  specialize (Htotal 0).
  destruct (document.process_chunks E _ metadata 0 docs) as [chunks|]
    eqn:Hchunks; [|done].
  exists chunks. destruct (process_chunks_spec E _ _ _ _ _ Hchunks)
    as [Hall Hids].
  split_and!; [done|symmetry; by eapply Forall2_length|].
  apply NoDup_alt. intros i j id Hi Hj.
  rewrite list_lookup_fmap in Hi, Hj.
  destruct (chunks !! i) as [ci|] eqn:Hci; [|done].
  destruct (chunks !! j) as [cj|] eqn:Hcj; [|done].
  simpl in Hi, Hj.
  destruct (Hids _ _ Hci) as (fi & Hfi & Hidi).
  destruct (Hids _ _ Hcj) as (fj & Hfj & Hidj).
  rewrite Hfid in Hfi, Hfj. simpl in Hfi, Hfj.
  injection Hfi as <-. injection Hfj as <-.
  rewrite Hidi in Hi. rewrite Hidj in Hj.
  injection Hi as <-. injection Hj as Hj.
  apply (inj (String.app file_id)), (inj (String.app "#chunk")) in Hj.
  by apply (inj pretty) in Hj.
Qed.

(** X17.  After a run of the ingestion pipeline that ended normally on a
    file in which the parser found documents, with upload metadata naming
    the file and the tenant and a model that gives one vector per text, the
    status endpoint answers ["completed"] for that file and tenant; when the
    index held no record of them before, the count it reports is the number
    of chunks of the file, at most 10000. *)
Theorem status_after_ingestion file_path metadata file_id user_id docs w w' :
  metadata !! "file_id" = Some (VStr file_id) →
  metadata !! "user_id" = Some (VStr user_id) →
  load_and_split E (w_history w) file_path = Returned docs →
  docs ≠ [] →
  (∀ h texts vs, model_encode E h texts = Returned vs →
                 length vs = length texts) →
  ingest.run_ingestion_pipeline E file_path metadata w = (Returned tt, w') →
  ∃ resp,
    status.get_processing_status E
      {| status.connect_fault := None; status.exists_query_fault := None;
         status.count_query_fault := None |} (w_index w') file_id user_id
    = ingest.HttpOk resp
    ∧ status.st_status resp = "completed"
    ∧ 1 ≤ status.st_chunk_count resp
    ∧ (file_records file_id user_id (w_index w) = ∅ →
       status.st_chunk_count resp = min status.count_limit (length docs)).
Proof.
  intros Hfid Huid Hload Hdocs Hlen Hrun.
  destruct (run_ingestion_pipeline_unfold E file_path metadata w)
    as (w2 & Hclean & Hrun').
  rewrite Hrun in Hrun'. injection Hrun' as Hbody <-.
  destruct (cleanup_spec E file_path
              (ingest.pipeline_body E file_path metadata w).2)
    as (w3 & Hclean' & Hidx & _).
  rewrite Hclean in Hclean'. injection Hclean' as <-.
  rewrite Hidx. clear Hidx Hclean Hrun.
  revert Hbody.
  unfold ingest.pipeline_body, try_except, document.process_file, mbind,
    M_bind, document.load_documents, with_history, raise.
  rewrite Hload. simpl.
  destruct (process_chunks_ids (w_history w ++ [EvLoad file_path]) metadata
              file_id docs Hfid) as (chunks & Hchunks & Hlength & Hnd).
  rewrite Hchunks. simpl.
  destruct chunks as [|c0 chunks].
  { destruct docs; [done|]. simpl in Hlength. lia. }
  destruct (vector.upsert_chunks E (c0 :: chunks) _) as [[[]|e] w1] eqn:Hup;
    simpl; [|done].
  intros _.
  destruct (upsert_chunks_records _ _ _ Hlen Hup) as (recs & Hw1 & Hrecs).
  simpl in Hw1.
  assert (rec_id <$> recs = chunk_id <$> (c0 :: chunks)) as Hids.
  { clear -Hrecs. induction Hrecs as [|c r cs rs [Hid _] _ IH]; [done|].
    rewrite !fmap_cons. by rewrite Hid, IH. }
  assert (Forall (λ r, status.matches_file file_id user_id r = true) recs)
    as Hmatch.
  { apply Forall_forall. intros r Hr.
    apply (list_elem_of_lookup_1 recs) in Hr as [i Hi].
    destruct (Forall2_lookup_r _ _ _ _ _ Hrecs Hi) as (c & Hc & _ & Hsan).
    apply list_elem_of_lookup_2 in Hc.
    unfold status.matches_file, search.matches_filter.
    assert (rec_metadata r !! "file_id" = Some (VStr file_id)) as ->.
    { eapply (sanitize_keeps_string E); [|exact Hsan|].
      - apply (bool_decide_eq_false_1 ("file_id" ∈ vector.exclude_fields)).
        by vm_compute.
      - by eapply (process_chunks_keeps E). }
    assert (rec_metadata r !! "user_id" = Some (VStr user_id)) as ->.
    { eapply (sanitize_keeps_string E); [|exact Hsan|].
      - apply (bool_decide_eq_false_1 ("user_id" ∈ vector.exclude_fields)).
        by vm_compute.
      - by eapply (process_chunks_keeps E). }
    by rewrite !bool_decide_eq_true_2. }
  assert (0 < length recs) as Hpos.
  { rewrite <- (length_fmap rec_id), Hids, length_fmap. simpl. lia. }
  assert (0 < size (file_records file_id user_id (w_index w1))) as Hfound.
  { destruct recs as [|r0 recs']; [simpl in Hpos; lia|].
    destruct (store_records_from (w_index w) (r0 :: recs') (rec_id r0))
      as (r & Hr & Hin & _); [rewrite fmap_cons; apply list_elem_of_here|].
    rewrite <- Hw1 in Hr.
    assert (file_records file_id user_id (w_index w1) !! rec_id r0 = Some r)
      as Hfr.
    { unfold file_records. apply map_lookup_filter_Some. split; [done|].
      simpl. eapply Forall_forall in Hmatch; [|exact Hin]. by rewrite Hmatch. }
    destruct (decide (size (file_records file_id user_id (w_index w1)) = 0))
      as [Hz|]; [|lia].
    apply map_size_empty_inv in Hz. by rewrite Hz, lookup_empty in Hfr. }
  destruct (get_processing_status_shape file_id user_id (w_index w1) Hfound)
    as (resp & Hresp & Hcompleted & Hcount).
  exists resp. split_and!; [done|done| |].
  - rewrite Hcount. unfold status.count_limit. lia.
  - intros Hfresh. rewrite Hcount, Hw1, size_file_records_store; [|by rewrite Hids|done|].
    + rewrite Hfresh, map_size_empty. simpl.
      rewrite <- (length_fmap rec_id recs), Hids, length_fmap. by rewrite Hlength.
    + intros r _. by rewrite Hfresh, lookup_empty.
Qed.

End status_more.

(** ** The shared embedding model *)

Section embedding_singleton.
Context (cfg : Settings).

Lemma get_embedding_model_times_set n p m :
  embeddings._model p = Some m →
  get_embedding_model_times cfg n p = (replicate n m, p).
Proof.
  intros Hm. induction n as [|n IH]; [done|]. simpl.
  unfold embeddings.get_embedding_model at 1. rewrite Hm. by rewrite IH.
Qed.

(** X18.  Any number of calls of [get_embedding_model] in a row return one
    and the same instance, and together they load the model once if none
    was set before the first call and not at all otherwise. *)
Theorem get_embedding_model_loads_once n p :
  let run := get_embedding_model_times cfg n p in
  (∃ m, run.1 = replicate n m
        ∧ (0 < n → embeddings._model run.2 = Some m))
  ∧ embeddings.loaded run.2
    = embeddings.loaded p
        ++ match embeddings._model p, n with
           | None, S _ => [EMBEDDING_MODEL_NAME cfg]
           | _, _ => []
           end.
Proof.
  destruct (embeddings._model p) as [m|] eqn:Hp.
  - rewrite (get_embedding_model_times_set n p m Hp). simpl. split.
    + exists m. by split.
    + by rewrite app_nil_r.
  - destruct n as [|n].
    { simpl. split; [exists 0; split; [done|lia]|by rewrite app_nil_r]. }
    set (m := length (embeddings.loaded p)).
    assert (get_embedding_model_times cfg (S n) p
            = (replicate (S n) m,
               embeddings.Process (Some m)
                 (embeddings.loaded p ++ [EMBEDDING_MODEL_NAME cfg]))) as ->.
    { simpl. unfold embeddings.get_embedding_model. rewrite Hp. simpl.
      by rewrite (get_embedding_model_times_set n _ m). }
    simpl. split; [|done]. exists m. by split.
Qed.

End embedding_singleton.

(** ** Texts that are stored and texts that are not *)

Section stored_texts.
Context (E : externals).

(** X19.  [upsert_chunks] embeds the ["text"] of a chunk but stores only its
    metadata: chunks whose metadata has no ["text"] leave records from which
    retrieval extracts nothing, whatever their text was. *)
Theorem upsert_chunks_text_only_from_metadata chunks w w' id :
  (∀ h texts vs, model_encode E h texts = Returned vs →
                 length vs = length texts) →
  vector.upsert_chunks E chunks w = (Returned tt, w') →
  Forall (λ c, chunk_metadata c !! "text" = None) chunks →
  id ∈ chunk_id <$> chunks →
  ∃ r, w_index w' !! id = Some r
       ∧ rec_metadata r !! "text" = None
       ∧ search.extract_texts [r] = [].
Proof.
  intros Hlen Hrun Hnone Hid.
  destruct (upsert_chunks_records E _ _ _ Hlen Hrun) as (recs & Hidx & Hrecs).
  assert (rec_id <$> recs = chunk_id <$> chunks) as Hids.
  { clear -Hrecs. induction Hrecs as [|c r cs rs [Hid _] _ IH]; [done|].
    rewrite !fmap_cons. by rewrite Hid, IH. }
  destruct (store_records_from (w_index w) recs id) as (r & Hr & Hin & _);
    [by rewrite Hids|].
  rewrite <- Hidx in Hr.
  apply (list_elem_of_lookup_1 recs) in Hin as [i Hi].
  destruct (Forall2_lookup_r _ _ _ _ _ Hrecs Hi) as (c & Hc & _ & Hsan).
  apply list_elem_of_lookup_2 in Hc.
  eapply Forall_forall in Hnone; [|exact Hc].
  pose proof (sanitize_lookup E _ _ Hsan "text") as Htext.
  rewrite Hnone in Htext.
  exists r. split_and!; [done|done|].
  unfold search.extract_texts. simpl. by rewrite Htext.
Qed.

End stored_texts.

(** ** The isolation test *)

Section isolation_test.
Context (E : externals).

Lemma starts_occurs t s : tests.starts t s = true → ∃ post, s = t +:+ post.
Proof.
  revert s. induction t as [|a t IH]; intros s H; [by exists s|].
  destruct s as [|b s]; [done|]. simpl in H.
  apply andb_true_iff in H as [Hab H]. apply bool_decide_eq_true_1 in Hab.
  destruct (IH _ H) as [post ->]. exists post. by rewrite Hab.
Qed.

Lemma contains_occurs t s : tests.contains t s = true → occurs t s.
Proof.
  induction s as [|b s IH]; simpl; intros H.
  - rewrite orb_false_r in H. apply starts_occurs in H as [post ->].
    by exists "", post.
  - apply orb_true_iff in H as [H|H].
    + apply starts_occurs in H as [post ->]. by exists "", post.
    + destruct (IH H) as (pre & post & ->). by exists (String b pre), post.
Qed.

(** X20.  The isolation test reports a breach only if tenant
    [user_beta_01] itself holds a text with the secret: started on an index
    in which no text of that tenant contains it, the test, if its calls do
    not raise, reports that isolation is verified. *)
Theorem test_multi_tenancy_isolation_verdict w v w' :
  (∀ t, tenant_text (w_index w) tests.user_b_id t →
        ¬ occurs tests.secret t) →
  tests.test_multi_tenancy_isolation E w = (Returned v, w') →
  v = tests.IsolationVerified.
Proof.
  intros Hclean.
  unfold tests.test_multi_tenancy_isolation, mbind, M_bind.
  pose proof (upsert_chunks_writes E (tagged tests.user_a_id)
                tests.user_a_data w) as (Hidx & _).
  { intros c san emb Hc Hsan. apply list_elem_of_singleton in Hc as ->.
    unfold tagged. simpl.
    eapply (sanitize_keeps_string E); [|exact Hsan|reflexivity].
    apply (bool_decide_eq_false_1 ("user_id" ∈ vector.exclude_fields)).
    by vm_compute. }
  destruct (vector.upsert_chunks E tests.user_a_data w) as [[[]|e] w1];
    [|done].
  simpl in Hidx. unfold tests.query_as_user_b.
  destruct (search.get_context E (w_index w1) _ tests.user_b_id)
    as [ctx|e] eqn:Hctx; [|done].
  intros [= <- _].
  destruct (tests.contains tests.secret ctx) eqn:Hin; [|done].
  exfalso. apply contains_occurs in Hin.
  destruct (get_context_provenance E _ _ _ _ Hctx) as (texts & -> & Htexts).
  apply occurs_join in Hin.
  - apply Exists_exists in Hin as (t & Ht & Hocc).
    eapply Forall_forall in Htexts; [|exact Ht].
    destruct Htexts as (id & r & Hid & Htag & Htext).
    destruct (Hidx id r Hid) as [Hold|Hnew].
    + apply (Hclean t); [|done]. by exists id, r.
    + unfold tagged in Htag, Hnew. rewrite Hnew in Htag. discriminate Htag.
  - apply (bool_decide_eq_false_1 (nl_char ∈ chars tests.secret)).
    vm_compute. reflexivity.
  - intros Hocc%occurs_length. vm_compute in Hocc. lia.
Qed.

End isolation_test.

(** ** The context and the answer *)

Section context_more.
Context (E : externals).

Lemma mapM_pick_in_range chunks indices :
  Forall (λ i, i < length chunks) indices →
  ∃ final, mapM (search.pick chunks) indices = Returned final
           ∧ Forall2 (λ i c, chunks !! i = Some c) indices final.
Proof.
  induction 1 as [|i indices Hi _ (final & Hfinal & Hall)].
  - exists []. by split.
  - rewrite mapM_outcome_cons. unfold search.pick at 1.
    destruct (lookup_lt_is_Some_2 chunks i Hi) as [c Hc].
    rewrite Hc, Hfinal. exists (c :: final). split; [done|].
    by constructor.
Qed.

Lemma all_strings_total i parts :
  Forall (λ v, is_str v = true) parts →
  ∃ strs, all_strings i parts = Returned strs ∧ parts = VStr <$> strs.
Proof.
  intros Hall. revert i.
  induction Hall as [|v parts Hv _ IH]; intros i.
  - exists []. by split.
  - destruct v as [|s| | | | | |]; try done. simpl.
    destruct (IH (S i)) as (strs & -> & ->). exists (s :: strs). by split.
Qed.

(** X21.  When the reranker answers with indices inside the list of texts
    it was given, and those texts are strings, the context is the texts the
    reranker chose, in its order and with its repetitions, joined by the
    separator. *)
Theorem get_context_follows_reranker idx query uid query_emb matches reranked :
  query_encode E query = Returned query_emb →
  search.index_query E idx query_emb (RETRIEVAL_LIMIT (settings E)) uid
    = Returned matches →
  search.extract_texts matches ≠ [] →
  cohere_rerank E query (search.extract_texts matches)
    (RERANK_LIMIT (settings E)) (COHERE_RERANK_MODEL (settings E))
    = Returned reranked →
  Forall (λ i, i < length (search.extract_texts matches)) reranked →
  Forall (λ v, is_str v = true) (search.extract_texts matches) →
  ∃ texts,
    search.get_context E idx query uid
      = Returned (join search.separator texts)
    ∧ Forall2 (λ i t, search.extract_texts matches !! i = Some (VStr t))
        reranked texts.
Proof.
  intros Henc Hq Hne Hrr Hrange Hstr.
  destruct (mapM_pick_in_range _ _ Hrange) as (final & Hfinal & Hpicked).
  assert (Forall (λ v, is_str v = true) final) as Hfinal_str.
  { apply Forall_forall. intros c Hc.
    eapply Forall_forall in Hstr; [exact Hstr|].
    by eapply mapM_pick. }
  destruct (all_strings_total 0 final Hfinal_str) as (texts & Htexts & ->).
  exists texts. split.
  - unfold search.get_context, try_catch. rewrite Henc. simpl.
    rewrite Hq. simpl.
    destruct matches as [|m0 matches]; [done|].
    destruct (search.extract_texts (m0 :: matches)) as [|c0 chunks] eqn:Hex;
      [done|].
    rewrite Hrr. simpl. rewrite Hfinal. simpl.
    unfold join_values. by rewrite Htexts.
  - by apply Forall2_fmap_r in Hpicked.
Qed.

(** X22.  A failure of the language model is not a failure of the endpoint:
    whenever a non-empty context was retrieved and the model does not return
    a message that begins with a text block, the endpoint answers with
    status ["success"] and an answer that begins with
    ["SERVICE_ERROR: "]. *)
Theorem query_rag_model_failure_is_success idx request context :
  search.get_context E idx (chat.query request) (chat.user_id request)
    = Returned context →
  context ≠ "" →
  (∀ text blocks,
     messages_create E (llm.request E (chat.query request) context)
     ≠ LLMReturned (Message (Some (TextBlock text :: blocks)))) →
  ∃ rest,
    chat.query_rag E idx request
    = Returned {| chat.answer := "SERVICE_ERROR: " +:+ rest;
                  chat.status := "success" |}.
Proof.
  intros Hctx Hne Hfail. rewrite query_rag_cases, Hctx.
  rewrite bool_decide_eq_false_2 by done.
  unfold llm.generate_answer.
  destruct (messages_create E _) as [r|[status api_text|e]] eqn:Hcall.
  - destruct r as [[[|[text|ty] blocks]|]|ty]; simpl;
      try (eexists; reflexivity).
    by destruct (Hfail text blocks).
  - case_bool_decide; eexists; reflexivity.
  - rewrite handle_plain_returns.
    destruct (exn_class e); eexists; reflexivity.
Qed.

End context_more.

(** ** Runs of these properties on examples *)

(** A file in which the parser finds nothing. *)
Lemma run_ingestion_pipeline_nothing_parsed_witness :
  let E := demo.providers [] demo.reply_ok in
  let w := World ∅ {[ "/tmp/x" ]} [] [] in
  ∃ w',
    ingest.run_ingestion_pipeline E "/tmp/x" ∅ w
    = (match load_and_split E (w_history w) "/tmp/x" with
       | Returned _ => Returned tt
       | Raised e => Raised e
       end, w')
    ∧ w_index w' = w_index w
    ∧ w_tasks w' = w_tasks w
    ∧ w_history w'
      = w_history w
          ++ EvLoad "/tmp/x"
             :: (if decide ("/tmp/x" ∈ w_files w) then [EvRemove "/tmp/x"]
                 else []).
Proof.
  intros E w.
  apply (run_ingestion_pipeline_nothing_parsed E "/tmp/x" ∅ w).
  reflexivity.
Defined.

(** The upload of [a.txt] by tenant [u1] and the run of its task. *)
Lemma upload_then_ingest_witness :
  let E := demo.providers [Document "alpha" []] demo.reply_ok in
  let form := {| ingest.content_length := None;
                 ingest.filename := Some "a.txt";
                 ingest.form_user_id := Some "u1" |} in
  let w := demo.empty_world in
  let upload := ingest.upload_document E form w in
  let file_id := "uuid-0-0" in
  let w2 := (ingest.run_next_task E upload.2).2 in
  w_tasks w2 = []
  ∧ (∀ id r, w_index w2 !! id = Some r →
       w_index w !! id = Some r
       ∨ (tagged "u1" r
          ∧ rec_metadata r !! "file_id" = Some (VStr file_id)))
  ∧ ((∀ h p, os_remove_fault E h p = None) →
     ∃ file_path,
       (file_path ∉ w_files w2)
       ∧ ∀ p, p ≠ file_path → (p ∈ w_files w2 ↔ p ∈ w_files w)).
Proof.
  intros E form w upload file_id w2.
  apply (upload_then_ingest E form w
           {| ingest.up_status := "ingestion_started";
              ingest.up_file_id := file_id;
              ingest.up_message := "Your document is being processed and will be available for chat shortly." |}
           upload.2).
  - vm_compute. reflexivity.
  - reflexivity.
Defined.

(** The status of a file of two chunks after its ingestion. *)
Lemma status_after_ingestion_witness :
  let E := demo.providers two_documents demo.reply_ok in
  let metadata := ingest.upload_metadata "f1" "a.txt" "u1" ".txt" in
  let w := World ∅ {[ "/tmp/x" ]} [] [] in
  let w' := (ingest.run_ingestion_pipeline E "/tmp/x" metadata w).2 in
  ∃ resp,
    status.get_processing_status E
      {| status.connect_fault := None; status.exists_query_fault := None;
         status.count_query_fault := None |} (w_index w') "f1" "u1"
    = ingest.HttpOk resp
    ∧ status.st_status resp = "completed"
    ∧ 1 ≤ status.st_chunk_count resp
    ∧ (file_records "f1" "u1" (w_index w) = ∅ →
       status.st_chunk_count resp
       = min status.count_limit (length two_documents)).
Proof.
  intros E metadata w w'.
  apply (status_after_ingestion E "/tmp/x" metadata "f1" "u1" two_documents
           w w').
  - reflexivity.
  - reflexivity.
  - reflexivity.
  - discriminate.
  - intros h texts vs [= <-]. apply length_fmap.
  - vm_compute. reflexivity.
Defined.

(** The record of the isolation test: its text is embedded, not stored. *)
Lemma upsert_chunks_text_only_from_metadata_witness :
  let E := demo.providers [] demo.reply_ok in
  let w' := (vector.upsert_chunks E tests.user_a_data demo.empty_world).2 in
  ∃ r, w_index w' !! "doc_1" = Some r
       ∧ rec_metadata r !! "text" = None
       ∧ search.extract_texts [r] = [].
Proof.
  intros E w'.
  apply (upsert_chunks_text_only_from_metadata E tests.user_a_data
           demo.empty_world w' "doc_1").
  - intros h texts vs [= <-]. apply length_fmap.
  - vm_compute. reflexivity.
  - repeat constructor.
  - apply list_elem_of_here.
Defined.

(** The test on an empty index. *)
Lemma test_multi_tenancy_isolation_verdict_witness :
  let E := demo.providers [] demo.reply_ok in
  let run := tests.test_multi_tenancy_isolation E demo.empty_world in
  match run.1 with
  | Returned v => v
  | Raised _ => tests.SecurityBreach
  end = tests.IsolationVerified.
Proof.
  intros E run.
  apply (test_multi_tenancy_isolation_verdict E demo.empty_world _ run.2).
  - intros t (id & r & Hid & _).
    change (w_index demo.empty_world)
      with (∅ : gmap string vector_record) in Hid.
    by rewrite lookup_empty in Hid.
  - vm_compute. reflexivity.
Defined.

(** Tenant [tenant_b] of the index with the dashes: both texts, in the
    order of the reranker. *)
Lemma get_context_follows_reranker_witness :
  let E := demo.providers [] demo.reply_ok in
  let matches :=
    match search.index_query E demo.dashes_index [1%Z] 50 "tenant_b" with
    | Returned matches => matches
    | Raised _ => []
    end in
  ∃ texts,
    search.get_context E demo.dashes_index "q" "tenant_b"
      = Returned (join search.separator texts)
    ∧ Forall2 (λ i t, search.extract_texts matches !! i = Some (VStr t))
        [0; 1] texts.
Proof.
  intros E matches.
  apply (get_context_follows_reranker E demo.dashes_index "q" "tenant_b"
           [1%Z] matches [0; 1]).
  - reflexivity.
  - vm_compute. reflexivity.
  - vm_compute. discriminate.
  - vm_compute. reflexivity.
  - vm_compute. repeat constructor.
  - vm_compute. repeat constructor.
Defined.

(** The model is not found: the endpoint says so under ["success"]. *)
Lemma query_rag_model_failure_is_success_witness :
  let E := demo.providers [] (LLMRaised (APIError (AttrInt 404) None)) in
  let request := chat.Build_ChatRequest "q" "tenant_b" in
  ∃ rest,
    chat.query_rag E demo.dashes_index request
    = Returned {| chat.answer := "SERVICE_ERROR: " +:+ rest;
                  chat.status := "success" |}.
Proof.
  intros E request.
  apply (query_rag_model_failure_is_success E demo.dashes_index request
           (match search.get_context E demo.dashes_index "q" "tenant_b" with
            | Returned context => context
            | Raised _ => ""
            end)).
  - vm_compute. reflexivity.
  - vm_compute. discriminate.
  - intros text blocks. discriminate.
Defined.
